(** * SVG territory paths to polygon data: a model of
      [MVP_GODOT/tools/svg_to_godot_polygons.py]

    The development embeds the converter class [SVGToGodotConverter] and the
    entry point [main] and proves the properties of the conversion pipeline:
    path parsing, coordinate scaling, greedy polygon simplification, centroid
    and the folder orchestration.

    Modelling conventions.
    - In the pipeline as a whole a Python [float] is a real number ([R]):
      arithmetic is exact, there is no rounding, overflow, infinity or NaN;
      [x ** 2] is [x ^ 2] and [x ** 0.5] is [sqrt x].  The statements on the
      parser, on the shape of the simplification and on the folder are about
      this arithmetic.
    - Where the rounding or the range of the floats decides a property
      (scaling against simplification, an exception out of the
      simplification), the scaler and the simplifier are modelled a second
      time, on binary64 floats, in the module [F64].
    - A Python [str] is a [string] of ASCII characters; on them the regular
      expression class [\d] is the digits 0 to 9.
    - A raised exception is the [Raise] constructor of [result]; [try] /
      [except] is [try_except].
    - The file system and the XML library are inputs of the model: a folder
      is the list of the [*.svg] files found in it, a file is the list of the
      [d] attributes of its path elements. *)

From Equations Require Import Equations.
From Stdlib Require Import Floats.
From Stdlib Require Import Ascii String.
From Stdlib Require Import List Arith ZArith Bool Lia.
From Stdlib Require Import Reals Lra.
From Stdlib Require Import Permutation Sorted OrderedTypeEx.
Import ListNotations.

Open Scope string_scope.
Open Scope list_scope.
Open Scope R_scope.

(** ** Exceptions *)

Inductive exn : Type :=
| ValueError
| IndexError
| ZeroDivisionError
| OverflowError
| ParseError
| OSError.

Inductive result (A : Type) : Type :=
| Ok (a : A)
| Raise (e : exn).

Arguments Ok {A} a.
Arguments Raise {A} e.

Definition bind {A B : Type} (m : result A) (k : A -> result B) : result B :=
  match m with
  | Ok a => k a
  | Raise e => Raise e
  end.

Notation "x <- m ;; k" := (bind m (fun x => k))
  (at level 61, m at next level, right associativity).

(** [try: body except (e1, e2, ...): handler]: an exception of the listed
    classes runs the handler; any other one propagates. *)
Definition try_except {A : Type} (body : result A) (caught : exn -> bool)
  (handler : result A) : result A :=
  match body with
  | Ok a => Ok a
  | Raise e => if caught e then handler else Raise e
  end.

Definition ValueError_or_IndexError (e : exn) : bool :=
  match e with
  | ValueError | IndexError => true
  | _ => false
  end.

(** [l[i]] for a non-negative index. *)
Definition getitem {A : Type} (l : list A) (i : nat) : result A :=
  match nth_error l i with
  | Some a => Ok a
  | None => Raise IndexError
  end.

(** ** Characters and tokens *)

(** A point is a tuple [(x, y)] of two floats. *)
#[warning="-notation-for-abbreviation"]
Notation Point := (R * R)%type (only parsing).

Definition is_command_char (c : ascii) : bool :=
  (Ascii.eqb c "M" || Ascii.eqb c "L" || Ascii.eqb c "Z")%bool.

Definition is_digit (c : ascii) : bool :=
  let n := nat_of_ascii c in ((48 <=? n) && (n <=? 57))%bool%nat.

(** The character class [[\d.]]. *)
Definition is_number_char (c : ascii) : bool :=
  (is_digit c || Ascii.eqb c ".")%bool.

(** [str.isspace] on the ASCII characters: tab to carriage return, the four
    separators 28..31 and the space. *)
Definition is_space (c : ascii) : bool :=
  let n := nat_of_ascii c in
  (((9 <=? n) && (n <=? 13)) || ((28 <=? n) && (n <=? 32)))%bool%nat.

Fixpoint lstrip (cs : list ascii) : list ascii :=
  match cs with
  | [] => []
  | c :: cs' => if is_space c then lstrip cs' else cs
  end.

(** [path_string.strip()] *)
Definition strip (cs : list ascii) : list ascii :=
  rev (lstrip (rev (lstrip cs))).

Definition flush (run : list ascii) : list string :=
  match run with
  | [] => []
  | _ :: _ => [string_of_list_ascii run]
  end.

(** [re.findall(r'[MLZ]|[\d.]+', s)]: the scan goes left to right; [run] is
    the run of number characters open at the current position.  A command
    letter is a match of its own, a number character extends the run (the [+]
    is greedy), any other character ends the run and is passed over. *)
Fixpoint findall_from (run : list ascii) (cs : list ascii) : list string :=
  match cs with
  | [] => flush run
  | c :: cs' =>
      if is_command_char c then
        flush run ++ String c EmptyString :: findall_from [] cs'
      else if is_number_char c then findall_from (run ++ [c]) cs'
      else flush run ++ findall_from [] cs'
  end.

Definition findall (cs : list ascii) : list string := findall_from [] cs.

(** ** [float] on a token

    The tokens are a command letter or a run of digits and dots.  On such a
    string [float] accepts the decimal numerals with at least one digit and at
    most one dot ([5], [5.], [.5], [5.25]) and raises [ValueError] on every
    other one ([M], [.], [1.2.3]). *)

Definition digit_value (c : ascii) : Z := Z.of_nat (nat_of_ascii c - 48).

(** The state of the scan: the digits read so far as an integer, how many of
    them, how many of them after the dot, and whether the dot was seen. *)
Record decimal : Type := mkDecimal {
  dec_digits : Z;
  dec_count : nat;
  dec_scale : nat;
  dec_dot : bool
}.

Fixpoint scan_decimal (cs : list ascii) (d : decimal) : option decimal :=
  match cs with
  | [] => Some d
  | c :: cs' =>
      if is_digit c then
        scan_decimal cs'
          (mkDecimal (10 * dec_digits d + digit_value c) (S (dec_count d))
             (if dec_dot d then S (dec_scale d) else dec_scale d) (dec_dot d))
      else if Ascii.eqb c "." then
        if dec_dot d then None
        else scan_decimal cs' (mkDecimal (dec_digits d) (dec_count d) (dec_scale d) true)
      else None
  end.

(** The numeral of a token: the integer of its digits and the number of
    digits after the dot. *)
Definition numeral (token : string) : option (Z * nat) :=
  match scan_decimal (list_ascii_of_string token) (mkDecimal 0 0 0 false) with
  | Some d => if (dec_count d =? 0)%nat then None else Some (dec_digits d, dec_scale d)
  | None => None
  end.

Definition float (token : string) : result R :=
  match numeral token with
  | Some (n, k) => Ok (IZR n / 10 ^ k)
  | None => Raise ValueError
  end.

(** ** [parse_svg_path] *)

(** [float(tokens[j])] *)
Definition float_at (tokens : list string) (j : nat) : result R :=
  t <- getitem tokens j ;; float t.

(** [token in ['M', 'L']] *)
Definition is_move_or_line (token : string) : bool :=
  (String.eqb token "M" || String.eqb token "L")%bool.

(** One turn of the [while] loop: from the index [i] and the list
    [coordinates] to their values at the end of the turn. *)
Definition loop_body (tokens : list string) (i : nat) (coordinates : list Point)
  : result (nat * list Point) :=
  token <- getitem tokens i ;;
  if is_move_or_line token then
    if (i + 2 <? length tokens)%nat then
      try_except
        (x <- float_at tokens (i + 1) ;;
         y <- float_at tokens (i + 2) ;;
         Ok ((i + 3)%nat, coordinates ++ [(x, y)]))
        ValueError_or_IndexError
        (Ok ((i + 1)%nat, coordinates))
    else Ok ((i + 1)%nat, coordinates)
  else if String.eqb token "Z" then Ok ((i + 1)%nat, coordinates)
  else
    if (i + 1 <? length tokens)%nat then
      try_except
        (x <- float token ;;
         y <- float_at tokens (i + 1) ;;
         Ok ((i + 2)%nat, coordinates ++ [(x, y)]))
        ValueError_or_IndexError
        (Ok ((i + 1)%nat, coordinates))
    else Ok ((i + 1)%nat, coordinates).

(** A value together with the equation that it is the value of [x]. *)
Definition inspect {A : Type} (x : A) : {y : A | x = y} := exist _ x eq_refl.

Equations? while_loop (tokens : list string) (i : nat) (coordinates : list Point)
  : result (list Point) by wf (length tokens - i)%nat lt :=
  while_loop tokens i coordinates with lt_dec i (length tokens) := {
    | right _ => Ok coordinates
    | left Hlt with inspect (loop_body tokens i coordinates) := {
        | exist _ (Ok (i', coordinates')) Hbody => while_loop tokens i' coordinates'
        | exist _ (Raise e) _ => Raise e } }.
Proof.
  (* every turn that completes moves the index forward *)
  enough (i < i')%nat by lia.
  revert Hbody. unfold loop_body, bind, try_except, float_at, bind.
  repeat match goal with
         | |- context [match ?x with _ => _ end] =>
             lazymatch x with
             | context [match _ with _ => _ end] => fail
             | _ => destruct x
             end
         end;
    intros H; try discriminate H; inversion H; subst; lia.
Qed.

Definition parse_svg_path (path_string : string) : result (list Point) :=
  let path_string := strip (list_ascii_of_string path_string) in
  let tokens := findall path_string in
  while_loop tokens 0 [].

(** *** The loop as a recursion on the tokens that remain

    [parse_tokens tokens] is what the loop appends when the tokens from its
    index on are [tokens]; [while_loop_parse_tokens] below proves it. *)
Definition float_opt (token : string) : option R :=
  match float token with
  | Ok x => Some x
  | Raise _ => None
  end.

Fixpoint parse_tokens (tokens : list string) : list Point :=
  match tokens with
  | [] => []
  | token :: rest =>
      if is_move_or_line token then
        match rest with
        | tx :: ty :: rest' =>
            match float_opt tx, float_opt ty with
            | Some x, Some y => (x, y) :: parse_tokens rest'
            | _, _ => parse_tokens rest
            end
        | _ => parse_tokens rest
        end
      else if String.eqb token "Z" then parse_tokens rest
      else
        match rest with
        | ty :: rest' =>
            match float_opt token, float_opt ty with
            | Some x, Some y => (x, y) :: parse_tokens rest'
            | _, _ => parse_tokens rest
            end
        | [] => parse_tokens rest
        end
  end.

(** ** The converter *)

Record SVGToGodotConverter : Type := mkConverter {
  source_width : R;
  source_height : R;
  target_width : R;
  target_height : R;
  scale_x : R;
  scale_y : R
}.

(** [a / b] *)
Definition truediv (a b : R) : result R :=
  if Req_dec_T b 0 then Raise ZeroDivisionError else Ok (a / b).

(** [SVGToGodotConverter.__init__] *)
Definition init (source_width source_height target_width target_height : R)
  : result SVGToGodotConverter :=
  scale_x <- truediv target_width source_width ;;
  scale_y <- truediv target_height source_height ;;
  Ok (mkConverter source_width source_height target_width target_height
        scale_x scale_y).

Definition scale_coordinates (self : SVGToGodotConverter)
  (coordinates : list Point) : list Point :=
  fold_left
    (fun scaled '(x, y) =>
       let scaled_x := x * scale_x self in
       let scaled_y := y * scale_y self in
       scaled ++ [(scaled_x, scaled_y)])
    coordinates [].

(** The distance of the loop of [simplify_polygon]. *)
Definition distance (prev curr : Point) : R :=
  let '(prev_x, prev_y) := prev in
  let '(curr_x, curr_y) := curr in
  sqrt ((curr_x - prev_x) ^ 2 + (curr_y - prev_y) ^ 2).

(** One turn of the loop of [simplify_polygon]; [simplified] is never
    empty there, the default of [last] is not used. *)
Definition simplify_step (tolerance : R) (simplified : list Point)
  (curr : Point) : list Point :=
  let prev := last simplified (0, 0) in
  if Rge_dec (distance prev curr) tolerance then simplified ++ [curr]
  else simplified.

Definition simplify_polygon (coordinates : list Point) (tolerance : R)
  : list Point :=
  if (length coordinates <=? 3)%nat then coordinates
  else
    match coordinates with
    | [] => []
    | first :: rest => fold_left (simplify_step tolerance) rest [first]
    end.

(** [sum(...)]: from 0, left to right. *)
Definition sum (xs : list R) : R := fold_left Rplus xs 0.

Definition calculate_centroid (coordinates : list Point) : Point :=
  match coordinates with
  | [] => (0, 0)
  | _ :: _ =>
      let x_sum := sum (map fst coordinates) in
      let y_sum := sum (map snd coordinates) in
      let count := INR (length coordinates) in
      (x_sum / count, y_sum / count)
  end.

(** The integer nearest to [x], a tie going to the even one. *)
Definition round_half_even (x : R) : Z :=
  let f := Int_part x in
  let r := x - IZR f in
  if Rlt_dec r (1 / 2) then f
  else if Rlt_dec (1 / 2) r then (f + 1)%Z
  else if Z.even f then f else (f + 1)%Z.

(** [round(x, ndigits)] *)
Definition round (x : R) (ndigits : nat) : R :=
  IZR (round_half_even (x * 10 ^ ndigits)) / 10 ^ ndigits.

(** ** Binary64 arithmetic

    The scaler and the simplifier as they run on the floats of Python: IEEE
    754 binary64 numbers, here the primitive floats of Rocq.  A product, a
    difference, a sum and a quotient are rounded to the nearest float and
    raise nothing, a quotient by zero apart; [x ** 2] is the rounded product
    [x * x] and raises [OverflowError] when [x] is finite and the product is
    not; [x ** 0.5] is the rounded square root; a comparison with NaN is
    false. *)

Module F64.

Local Open Scope float_scope.

(** A point is a tuple [(x, y)] of two floats. *)
#[warning="-notation-for-abbreviation"]
Notation Point := (PrimFloat.float * PrimFloat.float)%type (only parsing).

(** The converter built from sizes given as floats; an [int] below 2^53 is
    the float of the same value. *)
Record SVGToGodotConverter : Type := mkConverter {
  source_width : PrimFloat.float;
  source_height : PrimFloat.float;
  target_width : PrimFloat.float;
  target_height : PrimFloat.float;
  scale_x : PrimFloat.float;
  scale_y : PrimFloat.float
}.

(** [a / b] *)
Definition truediv (a b : PrimFloat.float) : result PrimFloat.float :=
  if b =? 0 then Raise ZeroDivisionError else Ok (a / b).

(** [SVGToGodotConverter.__init__] *)
Definition init (source_width source_height target_width target_height
                 : PrimFloat.float) : result SVGToGodotConverter :=
  scale_x <- truediv target_width source_width ;;
  scale_y <- truediv target_height source_height ;;
  Ok (mkConverter source_width source_height target_width target_height
        scale_x scale_y).

Definition scale_coordinates (self : SVGToGodotConverter)
  (coordinates : list Point) : list Point :=
  fold_left
    (fun scaled '(x, y) =>
       let scaled_x := x * scale_x self in
       let scaled_y := y * scale_y self in
       scaled ++ [(scaled_x, scaled_y)])
    coordinates [].

(** The square of a finite [x] is out of the range of the floats. *)
Definition overflows (x : PrimFloat.float) : bool :=
  is_finite x && is_infinity (x * x).

(** [x ** 2] *)
Definition pow_2 (x : PrimFloat.float) : result PrimFloat.float :=
  if overflows x then Raise OverflowError else Ok (x * x).

(** [x ** 0.5], for the sum of two squares: zero, positive, infinite or
    NaN. *)
Definition pow_half (x : PrimFloat.float) : PrimFloat.float :=
  PrimFloat.sqrt x.

(** The distance of the loop of [simplify_polygon]. *)
Definition distance (prev curr : Point) : result PrimFloat.float :=
  let '(prev_x, prev_y) := prev in
  let '(curr_x, curr_y) := curr in
  dx2 <- pow_2 (curr_x - prev_x) ;;
  dy2 <- pow_2 (curr_y - prev_y) ;;
  Ok (pow_half (dx2 + dy2)).

(** [distance >= tolerance], for the distance from [prev] to [curr]. *)
Definition reaches (tolerance : PrimFloat.float) (prev curr : Point)
  : result bool :=
  distance <- distance prev curr ;;
  Ok (tolerance <=? distance).

(** One turn of the loop of [simplify_polygon]; [simplified] is never
    empty there, the default of [last] is not used. *)
Definition simplify_step (tolerance : PrimFloat.float)
  (simplified : list Point) (curr : Point) : result (list Point) :=
  let prev := last simplified (0, 0) in
  keep <- reaches tolerance prev curr ;;
  Ok (if keep then simplified ++ [curr] else simplified).

Definition simplify_polygon (coordinates : list Point)
  (tolerance : PrimFloat.float) : result (list Point) :=
  if (length coordinates <=? 3)%nat then Ok coordinates
  else
    match coordinates with
    | [] => Ok []
    | first :: rest =>
        fold_left
          (fun simplified curr =>
             simplified <- simplified ;;
             simplify_step tolerance simplified curr)
          rest (Ok [first])
    end.

(** The point that [scale_coordinates] makes of a point. *)
Definition scale_point (self : SVGToGodotConverter) (p : Point) : Point :=
  let '(x, y) := p in (x * scale_x self, y * scale_y self).

(** The converter from 1920x1080 to 640x360: a third along both axes. *)
Definition third : SVGToGodotConverter :=
  mkConverter 1920 1080 640 360 (640 / 1920) (360 / 1080).

(** A converter that scales by 4 along x and by 1 along y. *)
Definition stretch : SVGToGodotConverter :=
  mkConverter 1 1 4 1 (4 / 1) (1 / 1).

End F64.

(** ** Files *)

(** What [ET.parse] and the two [findall] calls give for a file: nothing
    when the file cannot be read or parsed, or the [d] attributes (an absent
    one is the empty string) of the path elements found with and without the
    namespace. *)
Inductive SvgDocument : Type :=
| Unreadable
| Document (namespaced plain : list string).

Definition extend_with_path (all_coordinates : result (list Point)) (d : string)
  : result (list Point) :=
  all <- all_coordinates ;;
  if String.eqb d "" then Ok all
  else coords <- parse_svg_path d ;; Ok (all ++ coords).

Definition parse_svg_file (doc : SvgDocument) : result (list Point) :=
  try_except
    match doc with
    | Unreadable => Raise ParseError
    | Document namespaced plain =>
        let paths := match namespaced with [] => plain | _ :: _ => namespaced end in
        match paths with
        | [] => Ok []
        | _ :: _ => fold_left extend_with_path paths (Ok [])
        end
    end
    (fun _ => true)
    (Ok []).

(** A file of the folder: its name, which the pattern [*.svg] matched, and
    its content. *)
Record SvgFile : Type := mkSvgFile {
  file_name : string;
  document : SvgDocument
}.

(** [str.rfind('.')] *)
Fixpoint rfind_dot (cs : list ascii) (pos : nat) (found : option nat) : option nat :=
  match cs with
  | [] => found
  | c :: cs' =>
      rfind_dot cs' (S pos) (if Ascii.eqb c "." then Some pos else found)
  end.

(** [Path.stem]: the name without its last suffix; a dot at the first or at
    the last place starts no suffix. *)
Definition stem (name : string) : string :=
  let cs := list_ascii_of_string name in
  match rfind_dot cs 0 None with
  | Some i =>
      if ((0 <? i) && (i <? length cs - 1))%bool%nat
      then string_of_list_ascii (firstn i cs)
      else name
  | None => name
  end.

Definition is_upper (c : ascii) : bool :=
  let n := nat_of_ascii c in ((65 <=? n) && (n <=? 90))%bool%nat.

Definition is_lower (c : ascii) : bool :=
  let n := nat_of_ascii c in ((97 <=? n) && (n <=? 122))%bool%nat.

Definition to_upper (c : ascii) : ascii := ascii_of_nat (nat_of_ascii c - 32).
Definition to_lower (c : ascii) : ascii := ascii_of_nat (nat_of_ascii c + 32).

(** [str.title]: a letter after a letter is lowered, a letter after
    anything else is raised. *)
Fixpoint title_from (previous_is_cased : bool) (cs : list ascii) : list ascii :=
  match cs with
  | [] => []
  | c :: cs' =>
      if is_lower c then
        (if previous_is_cased then c else to_upper c) :: title_from true cs'
      else if is_upper c then
        (if previous_is_cased then to_lower c else c) :: title_from true cs'
      else c :: title_from false cs'
  end.

Definition title (s : string) : string :=
  string_of_list_ascii (title_from false (list_ascii_of_string s)).

(** [s.replace('_', ' ')] *)
Definition replace_underscores (s : string) : string :=
  string_of_list_ascii
    (map (fun c => if Ascii.eqb c "_" then " "%char else c)
       (list_ascii_of_string s)).

(** [sorted(svg_files)]: the files of one folder, by name. *)
Fixpoint insert_sorted (f : SvgFile) (fs : list SvgFile) : list SvgFile :=
  match fs with
  | [] => [f]
  | g :: fs' =>
      if String.ltb (file_name f) (file_name g) then f :: fs
      else g :: insert_sorted f fs'
  end.

Definition sorted (fs : list SvgFile) : list SvgFile :=
  fold_left (fun acc f => insert_sorted f acc) fs [].

(** ** [convert_svg_folder] *)

Record TerritoryRecord : Type := mkTerritory {
  name : string;
  polygon : list Point;
  centroid : Point;
  vertex_count : nat
}.

(** The dictionary [result]: keys in the order of their first insertion. *)
Definition Dataset : Type := list (string * TerritoryRecord).

(** [result[key] = value] *)
Fixpoint dict_set (d : Dataset) (key : string) (value : TerritoryRecord) : Dataset :=
  match d with
  | [] => [(key, value)]
  | (k, v) :: d' =>
      if String.eqb k key then (k, value) :: d'
      else (k, v) :: dict_set d' key value
  end.

(** What [Path(svg_folder)] is on the disk: no such path, or the files that
    [glob("*.svg")] lists. *)
Inductive Folder : Type :=
| Missing
| Listing (svg_files : list SvgFile).

(** One turn of the loop over the files. *)
Definition convert_file (self : SVGToGodotConverter) (simplify : bool)
  (tolerance : R) (dataset : result Dataset) (svg_file : SvgFile)
  : result Dataset :=
  result <- dataset ;;
  let territory_name := title (replace_underscores (stem (file_name svg_file))) in
  let territory_id := stem (file_name svg_file) in
  raw_coords <- parse_svg_file (document svg_file) ;;
  match raw_coords with
  | [] => Ok result
  | _ :: _ =>
      let scaled_coords := scale_coordinates self raw_coords in
      let scaled_coords :=
        if simplify then simplify_polygon scaled_coords tolerance
        else scaled_coords in
      let centroid := calculate_centroid scaled_coords in
      let polygon_points :=
        map (fun '(x, y) => (round x 2, round y 2)) scaled_coords in
      Ok (dict_set result territory_id
            (mkTerritory territory_name polygon_points
               (round (fst centroid) 2, round (snd centroid) 2)
               (length polygon_points)))
  end.

Definition convert_svg_folder (self : SVGToGodotConverter) (svg_folder : Folder)
  (simplify : bool) (tolerance : R) : result Dataset :=
  match svg_folder with
  | Missing => Ok []
  | Listing svg_files =>
      match svg_files with
      | [] => Ok []
      | _ :: _ =>
          fold_left (convert_file self simplify tolerance) (sorted svg_files)
            (Ok [])
      end
  end.

(** ** [main] *)

(** How the process ends: [main] returns, [sys.exit] is called, or an
    exception reaches the top level. *)
Inductive termination : Type :=
| Returns
| SystemExit (status : Z)
| Unhandled (e : exn).

Definition exit_status (t : termination) : Z :=
  match t with
  | Returns => 0%Z
  | SystemExit status => status
  | Unhandled _ => 1%Z
  end.

(** What [main] reads from and writes to outside the program. *)
Record Environment : Type := mkEnvironment {
  argv : list string;
  default_input : string;
  default_output : string;
  (** [int] on a string; [None] is [ValueError]. *)
  int : string -> option Z;
  (** the folder at a path *)
  folder_at : string -> Folder;
  (** the parent directory of a path exists or can be made *)
  mkdir_parent : string -> bool;
  (** the dataset can be written to a path and the file measured *)
  write_json : string -> Dataset -> bool
}.

Definition save_to_json (env : Environment) (data : Dataset)
  (output_path : string) : termination :=
  if write_json env output_path data then Returns else SystemExit 1.

(** The two paths that [main] takes from the command line. *)
Definition input_folder (env : Environment) : string :=
  if (1 <? length (argv env))%nat then nth 1 (argv env) ""
  else default_input env.

Definition output_file (env : Environment) : string :=
  if (2 <? length (argv env))%nat then nth 2 (argv env) ""
  else default_output env.

Definition main (env : Environment) : termination :=
  let input_folder := input_folder env in
  let output_file := output_file env in
  let source_width := 1920 in
  let source_height := 1080 in
  let target_width := 1920 in
  let target_height := 1080 in
  let '(target_width, target_height) :=
    if (4 <? length (argv env))%nat then
      match int env (nth 3 (argv env) "") with
      | Some w =>
          match int env (nth 4 (argv env) "") with
          | Some h => (IZR w, IZR h)
          | None => (IZR w, target_height)
          end
      | None => (target_width, target_height)
      end
    else (target_width, target_height) in
  if negb (mkdir_parent env output_file) then Unhandled OSError
  else
    match init source_width source_height target_width target_height with
    | Raise e => Unhandled e
    | Ok converter =>
        match convert_svg_folder converter (folder_at env input_folder) true 1 with
        | Raise e => Unhandled e
        | Ok godot_data =>
            match godot_data with
            | [] => SystemExit 1
            | _ :: _ => save_to_json env godot_data output_file
            end
        end
    end.

(** ** The statements of the specification *)

(** The greedy walk in the words of the specification: [kept] is the point
    kept last; a point is kept when its distance to [kept] reaches the
    tolerance and becomes the point kept last, otherwise it is dropped and
    [kept] stays. *)
Inductive greedy_walk (tolerance : R) : Point -> list Point -> list Point -> Prop :=
| greedy_end kept : greedy_walk tolerance kept [] []
| greedy_keep kept p rest out :
    distance kept p >= tolerance ->
    greedy_walk tolerance p rest out ->
    greedy_walk tolerance kept (p :: rest) (p :: out)
| greedy_drop kept p rest out :
    distance kept p < tolerance ->
    greedy_walk tolerance kept rest out ->
    greedy_walk tolerance kept (p :: rest) out.




(** A token is numeric when [float] accepts it. *)
Definition is_numeric (token : string) : bool :=
  match float token with
  | Ok _ => true
  | Raise _ => false
  end.

Definition numeric_count (tokens : list string) : nat :=
  length (filter is_numeric tokens).


(** The path string with a space in place of each minus sign. *)
Definition minus_to_space (s : string) : string :=
  string_of_list_ascii
    (map (fun c => if Ascii.eqb c "-" then " "%char else c)
       (list_ascii_of_string s)).

(** A character that is in no token. *)
Definition is_separator (c : ascii) : bool :=
  (negb (is_command_char c) && negb (is_number_char c))%bool.

(** A token is a command letter or a run of digits and dots. *)
Definition is_token (token : string) : Prop :=
  (exists c, is_command_char c = true /\ token = String c EmptyString) \/
  (token <> "" /\ forallb is_number_char (list_ascii_of_string token) = true).

(** The point that [scale_coordinates] makes of a point. *)
Definition scale_point (self : SVGToGodotConverter) (p : Point) : Point :=
  let '(x, y) := p in (x * scale_x self, y * scale_y self).

(** The converter of [main] with the default target: both scales are 1. *)
Definition default_converter : SVGToGodotConverter :=
  mkConverter 1920 1080 1920 1080 (1920 / 1920) (1080 / 1080).

(** An environment with no folder at the input path. *)
Definition no_folder : Environment :=
  mkEnvironment ["svg_to_godot_polygons.py"] "territories_svg"
    "data/territory_polygons.json" (fun _ => None) (fun _ => Missing)
    (fun _ => true) (fun _ _ => true).

(** ** Definitions for the further properties *)

(** A path written in the grammar that the docstring of [parse_svg_path]
    names: [M x,y], [L x,y], a bare pair [x,y] and [Z], each followed by a
    space.  The operands are the numerals as they are written. *)
Inductive path_item : Type :=
| MoveTo (x y : string)
| LineTo (x y : string)
| Implicit (x y : string)
| ClosePath.

Definition render_operands (x y : string) : list ascii :=
  list_ascii_of_string x ++ ","%char :: list_ascii_of_string y ++ [" "%char].

Definition render_item (item : path_item) : list ascii :=
  match item with
  | MoveTo x y => "M"%char :: render_operands x y
  | LineTo x y => "L"%char :: render_operands x y
  | Implicit x y => render_operands x y
  | ClosePath => ["Z"%char; " "%char]
  end.

Definition render_path (items : list path_item) : string :=
  string_of_list_ascii (concat (map render_item items)).

(** The value of a numeral that [float] accepts. *)
Definition operand (token : string) : R :=
  match float token with
  | Ok x => x
  | Raise _ => 0
  end.

Definition item_points (item : path_item) : list Point :=
  match item with
  | MoveTo x y | LineTo x y | Implicit x y => [(operand x, operand y)]
  | ClosePath => []
  end.

Definition item_numeric (item : path_item) : Prop :=
  match item with
  | MoveTo x y | LineTo x y | Implicit x y =>
      is_numeric x = true /\ is_numeric y = true
  | ClosePath => True
  end.

(** The points of one path string; [parse_svg_path] raises nothing. *)
Definition path_points (d : string) : list Point :=
  match parse_svg_path d with
  | Ok coords => coords
  | Raise _ => []
  end.

(** Each point of [out] is at least [tolerance] away from the point before
    it, [kept] being before the first. *)
Fixpoint spaced (tolerance : R) (kept : Point) (out : list Point) : Prop :=
  match out with
  | [] => True
  | p :: out' => distance kept p >= tolerance /\ spaced tolerance p out'
  end.

(** [l1] is [l2] with some elements left out, the order kept. *)
Inductive subsequence {A : Type} : list A -> list A -> Prop :=
| subsequence_nil : subsequence [] []
| subsequence_keep a l1 l2 : subsequence l1 l2 -> subsequence (a :: l1) (a :: l2)
| subsequence_drop a l1 l2 : subsequence l1 l2 -> subsequence l1 (a :: l2).



(** The tokens of an item of a path. *)
Definition item_tokens (item : path_item) : list string :=
  match item with
  | MoveTo x y => ["M"; x; y]
  | LineTo x y => ["L"; x; y]
  | Implicit x y => [x; y]
  | ClosePath => ["Z"]
  end.

(** A file that gives at least one point. *)
Definition has_points (svg_file : SvgFile) : bool :=
  match parse_svg_file (document svg_file) with
  | Ok (_ :: _) => true
  | _ => false
  end.

(** The points that [convert_svg_folder] keeps for the raw points of a
    file: scaled, then simplified when asked. *)
Definition final_points (self : SVGToGodotConverter) (simplify : bool)
  (tolerance : R) (raw_coords : list Point) : list Point :=
  let scaled_coords := scale_coordinates self raw_coords in
  if simplify then simplify_polygon scaled_coords tolerance else scaled_coords.

(** The record that [convert_svg_folder] stores for a file with points. *)
Definition file_record (self : SVGToGodotConverter) (simplify : bool)
  (tolerance : R) (svg_file : SvgFile) : TerritoryRecord :=
  let raw_coords :=
    match parse_svg_file (document svg_file) with
    | Ok coords => coords
    | Raise _ => []
    end in
  let scaled_coords := final_points self simplify tolerance raw_coords in
  let centroid := calculate_centroid scaled_coords in
  let polygon_points :=
    map (fun '(x, y) => (round x 2, round y 2)) scaled_coords in
  mkTerritory (title (replace_underscores (stem (file_name svg_file))))
    polygon_points (round (fst centroid) 2, round (snd centroid) 2)
    (length polygon_points).

(** The files of a folder; a folder that is not there has none. *)
Definition folder_files (svg_folder : Folder) : list SvgFile :=
  match svg_folder with
  | Missing => []
  | Listing svg_files => svg_files
  end.

(** The entry that [convert_svg_folder] stores for a file with points. *)
Definition file_entry (self : SVGToGodotConverter) (simplify : bool)
  (tolerance : R) (svg_file : SvgFile) : string * TerritoryRecord :=
  (stem (file_name svg_file), file_record self simplify tolerance svg_file).

(** The dataset after one more file. *)
Definition add_file (self : SVGToGodotConverter) (simplify : bool)
  (tolerance : R) (data : Dataset) (svg_file : SvgFile) : Dataset :=
  if has_points svg_file then
    dict_set data (stem (file_name svg_file))
      (file_record self simplify tolerance svg_file)
  else data.

(** No file comes before a file of smaller name. *)
Definition name_le (f g : SvgFile) : Prop :=
  String.ltb (file_name g) (file_name f) = false.

(** A character with its case forgotten: an upper-case letter becomes the
    lower-case one. *)
Definition fold_case (c : ascii) : ascii :=
  if is_upper c then to_lower c else c.

(** ** The parser *)

Lemma getitem_skipn {A : Type} (l : list A) (i : nat) (a : A) :
  getitem l i = Ok a -> skipn i l = a :: skipn (S i) l.
Proof.
  unfold getitem. revert i. induction l as [|b l IH]; intros [|i]; simpl;
    try discriminate.
  - intros [= ->]. reflexivity.
  - intros H. rewrite (IH i H). destruct l; reflexivity.
Qed.

Lemma getitem_in_range {A : Type} (l : list A) (i : nat) :
  (i < length l)%nat -> exists a, getitem l i = Ok a.
Proof.
  intros H. unfold getitem. destruct (nth_error l i) eqn:E; eauto.
  apply nth_error_None in E. lia.
Qed.

Lemma float_opt_Some token x : float_opt token = Some x -> float token = Ok x.
Proof. unfold float_opt. destruct (float token); congruence. Qed.

Lemma float_opt_None token :
  float_opt token = None -> float token = Raise ValueError.
Proof.
  unfold float_opt, float. destruct (numeral token) as [[n k]|]; congruence.
Qed.

(** One turn of the loop never raises, and what it appends is what
    [parse_tokens] puts first. *)
Lemma loop_body_parse_tokens tokens i coordinates :
  (i < length tokens)%nat ->
  exists i' ps,
    loop_body tokens i coordinates = Ok (i', coordinates ++ ps) /\
    parse_tokens (skipn i tokens) = ps ++ parse_tokens (skipn i' tokens).
Proof.
  intros Hi. destruct (getitem_in_range tokens i Hi) as [token Htok].
  unfold loop_body. rewrite Htok. simpl bind.
  rewrite (getitem_skipn _ _ _ Htok).
  remember (skipn (S i) tokens) as rest eqn:Hrest.
  simpl parse_tokens. subst rest.
  change (String.eqb token "M" || String.eqb token "L")%bool
    with (is_move_or_line token).
  assert (Hnil : forall (j : nat) (l : list string), exists ps : list Point,
             Ok (j, coordinates) = Ok (j, coordinates ++ ps) /\
             parse_tokens l = ps ++ parse_tokens l).
  { intros j l. exists []. rewrite app_nil_r. auto. }
  destruct (is_move_or_line token).
  - destruct (i + 2 <? length tokens)%nat eqn:Hlen.
    + apply Nat.ltb_lt in Hlen.
      destruct (getitem_in_range tokens (i + 1)) as [tx Hx]; [lia|].
      destruct (getitem_in_range tokens (i + 2)) as [ty Hy]; [lia|].
      assert (E : skipn (i + 1) tokens = tx :: ty :: skipn (i + 3) tokens).
      { rewrite (getitem_skipn _ _ _ Hx).
        replace (S (i + 1)) with (i + 2)%nat by lia.
        rewrite (getitem_skipn _ _ _ Hy).
        replace (S (i + 2)) with (i + 3)%nat by lia. reflexivity. }
      replace (S i) with (i + 1)%nat by lia. rewrite E.
      unfold float_at. rewrite Hx, Hy. simpl bind.
      destruct (float_opt tx) as [x|] eqn:Ex.
      * rewrite (float_opt_Some _ _ Ex). simpl bind.
        destruct (float_opt ty) as [y|] eqn:Ey.
        -- rewrite (float_opt_Some _ _ Ey). cbn [bind try_except ValueError_or_IndexError].
           exists (i + 3)%nat, [(x, y)]. split; reflexivity.
        -- rewrite (float_opt_None _ Ey). cbn [bind try_except ValueError_or_IndexError].
           exists (i + 1)%nat. rewrite <- E. apply Hnil.
      * rewrite (float_opt_None _ Ex). cbn [bind try_except ValueError_or_IndexError].
        exists (i + 1)%nat. rewrite <- E. apply Hnil.
    + apply Nat.ltb_ge in Hlen. exists (i + 1)%nat.
      replace (S i) with (i + 1)%nat by lia.
      destruct (skipn (i + 1) tokens) as [|tx [|ty rest]] eqn:E; try apply Hnil.
      exfalso. assert (L : length (skipn (i + 1) tokens) = length (tx :: ty :: rest))
        by (rewrite E; reflexivity).
      rewrite length_skipn in L. simpl in L. lia.
  - destruct (String.eqb token "Z").
    + exists (i + 1)%nat. replace (S i) with (i + 1)%nat by lia. apply Hnil.
    + destruct (i + 1 <? length tokens)%nat eqn:Hlen.
      * apply Nat.ltb_lt in Hlen.
        destruct (getitem_in_range tokens (i + 1)) as [ty Hy]; [lia|].
        assert (E : skipn (i + 1) tokens = ty :: skipn (i + 2) tokens).
        { rewrite (getitem_skipn _ _ _ Hy).
          replace (S (i + 1)) with (i + 2)%nat by lia. reflexivity. }
        replace (S i) with (i + 1)%nat by lia. rewrite E.
        unfold float_at. rewrite Hy.
        destruct (float_opt token) as [x|] eqn:Ex.
        -- rewrite (float_opt_Some _ _ Ex). simpl bind.
           destruct (float_opt ty) as [y|] eqn:Ey.
           ++ rewrite (float_opt_Some _ _ Ey). cbn [bind try_except ValueError_or_IndexError].
              exists (i + 2)%nat, [(x, y)]. split; reflexivity.
           ++ rewrite (float_opt_None _ Ey). cbn [bind try_except ValueError_or_IndexError].
              exists (i + 1)%nat. rewrite <- E. apply Hnil.
        -- rewrite (float_opt_None _ Ex). cbn [bind try_except ValueError_or_IndexError].
           exists (i + 1)%nat. rewrite <- E. apply Hnil.
      * apply Nat.ltb_ge in Hlen. exists (i + 1)%nat.
        replace (S i) with (i + 1)%nat by lia.
        destruct (skipn (i + 1) tokens) as [|ty rest] eqn:E; try apply Hnil.
        exfalso. assert (L : length (skipn (i + 1) tokens) = length (ty :: rest))
          by (rewrite E; reflexivity).
        rewrite length_skipn in L. simpl in L. lia.
Qed.

(** The loop appends [parse_tokens] of the tokens from its index on, and
    it never raises. *)
Lemma while_loop_parse_tokens tokens i coordinates :
  while_loop tokens i coordinates =
  Ok (coordinates ++ parse_tokens (skipn i tokens)).
Proof.
  funelim (while_loop tokens i coordinates).
  - rewrite skipn_all2 by lia. rewrite app_nil_r. reflexivity.
  - destruct (loop_body_parse_tokens tokens i coordinates Hlt)
      as (j & ps & Hj & Hps).
    rewrite Hbody in Hj. injection Hj as -> ->.
    match goal with IH : while_loop _ _ _ = Ok _ |- _ => rewrite IH end.
    rewrite Hps, app_assoc. reflexivity.
  - destruct (loop_body_parse_tokens tokens i coordinates Hlt)
      as (j & ps & Hj & _).
    congruence.
Qed.

Lemma parse_svg_path_parse_tokens path_string :
  parse_svg_path path_string =
  Ok (parse_tokens (findall (strip (list_ascii_of_string path_string)))).
Proof.
  unfold parse_svg_path. rewrite while_loop_parse_tokens. reflexivity.
Qed.

(** *** Separators *)

Lemma findall_from_separator run c cs :
  is_separator c = true ->
  findall_from run (c :: cs) = flush run ++ findall_from [] cs.
Proof.
  unfold is_separator. intros H. simpl.
  destruct (is_command_char c), (is_number_char c); try discriminate H.
  reflexivity.
Qed.

Lemma is_space_separator c : is_space c = true -> is_separator c = true.
Proof.
  destruct c as [[] [] [] [] [] [] [] []]; vm_compute; congruence.
Qed.

Lemma findall_lstrip cs : findall (lstrip cs) = findall cs.
Proof.
  unfold findall. induction cs as [|c cs IH]; simpl lstrip; [reflexivity|].
  destruct (is_space c) eqn:E; [|reflexivity].
  rewrite findall_from_separator by now apply is_space_separator.
  exact IH.
Qed.

Lemma findall_from_app_separator run cs c :
  is_separator c = true ->
  findall_from run (cs ++ [c]) = findall_from run cs.
Proof.
  intros H. revert run. induction cs as [|d cs IH]; intros run.
  - simpl app. rewrite findall_from_separator by assumption.
    simpl. apply app_nil_r.
  - simpl. rewrite !IH. reflexivity.
Qed.

Lemma findall_rstrip cs : findall (rev (lstrip (rev cs))) = findall cs.
Proof.
  rewrite <- (rev_involutive cs) at 2.
  generalize (rev cs) as l. clear cs. unfold findall.
  induction l as [|c l IH]; [reflexivity|].
  simpl lstrip. destruct (is_space c) eqn:E; [|reflexivity].
  simpl rev. rewrite findall_from_app_separator
    by now apply is_space_separator.
  exact IH.
Qed.

(** Stripping the path string changes no token. *)
Lemma findall_strip cs : findall (strip cs) = findall cs.
Proof. unfold strip. rewrite findall_rstrip. apply findall_lstrip. Qed.

Lemma findall_from_map_separator (f : ascii -> ascii) :
  (forall c, f c = c \/ (is_separator c = true /\ is_separator (f c) = true)) ->
  forall cs run, findall_from run (map f cs) = findall_from run cs.
Proof.
  intros Hf. induction cs as [|c cs IH]; intros run; [reflexivity|].
  simpl map. destruct (Hf c) as [-> | [H1 H2]].
  - simpl. rewrite !IH. reflexivity.
  - rewrite !findall_from_separator by assumption. rewrite IH. reflexivity.
Qed.

(** *** Where the loop goes *)

Lemma is_numeric_float token :
  is_numeric token = true <-> exists x, float token = Ok x.
Proof.
  unfold is_numeric. destruct (float token); split; eauto; try discriminate.
  intros [x H]. discriminate H.
Qed.

Lemma is_numeric_float_opt token :
  is_numeric token = true <-> exists x, float_opt token = Some x.
Proof.
  unfold is_numeric, float_opt. destruct (float token); split; eauto;
    try discriminate. intros [x H]. discriminate H.
Qed.

Lemma command_not_numeric token :
  (is_move_or_line token || String.eqb token "Z")%bool = true ->
  is_numeric token = false.
Proof.
  unfold is_move_or_line. intros H.
  apply orb_true_iff in H. rewrite orb_true_iff in H.
  destruct H as [[H|H]|H]; apply String.eqb_eq in H; subst; reflexivity.
Qed.




(** *** Points and numeric tokens *)

Lemma numeric_count_cons token tokens :
  numeric_count (token :: tokens) =
  ((if is_numeric token then 1 else 0) + numeric_count tokens)%nat.
Proof.
  unfold numeric_count. simpl. destruct (is_numeric token); reflexivity.
Qed.

(** Every point takes two numeric tokens. *)
Lemma parse_tokens_numeric_count tokens :
  (2 * length (parse_tokens tokens) <= numeric_count tokens)%nat.
Proof.
  remember (length tokens) as n eqn:Hn.
  assert (Hle : (length tokens <= n)%nat) by lia. clear Hn.
  revert tokens Hle. induction n as [|n IH]; intros [|t tokens] Hle;
    simpl in Hle; try lia; try (simpl; lia).
  assert (IH1 := IH tokens ltac:(lia)).
  rewrite numeric_count_cons. simpl parse_tokens.
  destruct (is_move_or_line t).
  - destruct tokens as [|tx [|ty rest]]; try lia.
    assert (IH2 := IH rest ltac:(simpl in Hle; lia)).
    rewrite !numeric_count_cons in *.
    destruct (float_opt tx) as [x|] eqn:Ex; [|lia].
    destruct (float_opt ty) as [y|] eqn:Ey; [|lia].
    assert (Hx : is_numeric tx = true) by (apply is_numeric_float_opt; eauto).
    assert (Hy : is_numeric ty = true) by (apply is_numeric_float_opt; eauto).
    rewrite Hx, Hy. simpl length. lia.
  - destruct (String.eqb t "Z"); [lia|].
    destruct tokens as [|ty rest]; try lia.
    assert (IH2 := IH rest ltac:(simpl in Hle; lia)).
    rewrite !numeric_count_cons in *.
    destruct (float_opt t) as [x|] eqn:Ex; [|lia].
    destruct (float_opt ty) as [y|] eqn:Ey; [|lia].
    assert (Hx : is_numeric t = true) by (apply is_numeric_float_opt; eauto).
    assert (Hy : is_numeric ty = true) by (apply is_numeric_float_opt; eauto).
    rewrite Hx, Hy. simpl length. lia.
Qed.


Lemma float_raises token e : float token = Raise e -> e = ValueError.
Proof.
  unfold float. destruct (numeral token) as [[n k]|]; congruence.
Qed.

Lemma is_numeric_false token :
  is_numeric token = false -> float token = Raise ValueError.
Proof.
  unfold is_numeric. destruct (float token) as [x|e] eqn:E; [discriminate|].
  intros _. rewrite (float_raises _ _ E). reflexivity.
Qed.

(** A token that is neither [M] nor [L] nor numeric is passed over. *)
Lemma loop_body_skips tokens i coordinates token :
  getitem tokens i = Ok token ->
  is_move_or_line token = false ->
  is_numeric token = false ->
  loop_body tokens i coordinates = Ok ((i + 1)%nat, coordinates).
Proof.
  intros Htok Hml Hnum. unfold loop_body. rewrite Htok. simpl bind.
  change (String.eqb token "M" || String.eqb token "L")%bool
    with (is_move_or_line token).
  rewrite Hml. destruct (String.eqb token "Z"); [reflexivity|].
  destruct (i + 1 <? length tokens)%nat; [|reflexivity].
  rewrite (is_numeric_false _ Hnum). reflexivity.
Qed.

(** *** The shape of the tokens *)

Lemma flush_tokens run :
  forallb is_number_char run = true -> Forall is_token (flush run).
Proof.
  intros H. destruct run as [|c run]; constructor; [|constructor].
  right. split; [discriminate|].
  rewrite list_ascii_of_string_of_list_ascii. exact H.
Qed.

Lemma findall_from_tokens cs :
  forall run, forallb is_number_char run = true ->
              Forall is_token (findall_from run cs).
Proof.
  induction cs as [|c cs IH]; intros run Hrun; simpl.
  - now apply flush_tokens.
  - destruct (is_command_char c) eqn:Ec.
    + apply Forall_app. split; [now apply flush_tokens|].
      constructor; [left; eauto | now apply IH].
    + destruct (is_number_char c) eqn:En.
      * apply IH. rewrite forallb_app, Hrun. simpl. now rewrite En.
      * apply Forall_app. split; [now apply flush_tokens | now apply IH].
Qed.

Lemma findall_tokens cs : Forall is_token (findall cs).
Proof. now apply findall_from_tokens. Qed.

Lemma token_without (c : ascii) token :
  is_separator c = true -> is_token token ->
  ~ In c (list_ascii_of_string token).
Proof.
  unfold is_separator. intros Hc [(d & Hd & ->) | [_ Hnum]] Hin.
  - simpl in Hin. destruct Hin as [<-|[]]. rewrite Hd in Hc. discriminate.
  - rewrite forallb_forall in Hnum. rewrite (Hnum _ Hin) in Hc.
    rewrite andb_false_r in Hc. discriminate.
Qed.

(** *** Running the parser on a given string *)

Lemma float_opt_numeral token :
  float_opt token =
  match numeral token with
  | Some (n, k) => Some (IZR n / 10 ^ k)
  | None => None
  end.
Proof.
  unfold float_opt, float. destruct (numeral token) as [[n k]|]; reflexivity.
Qed.

Ltac eval_tokens :=
  match goal with
  | |- context [findall ?cs] =>
      let v := eval vm_compute in (findall cs) in
      change (findall cs) with v
  end.

Ltac eval_numerals :=
  repeat match goal with
         | |- context [float_opt ?t] =>
             rewrite (float_opt_numeral t);
             let v := eval vm_compute in (numeral t) in
             change (numeral t) with v; cbv iota beta
         end.

Ltac run_parser :=
  rewrite parse_svg_path_parse_tokens; eval_tokens;
  cbn [parse_tokens is_move_or_line String.eqb Ascii.eqb Bool.eqb orb];
  eval_numerals; simpl pow.

(** An [M] or [L] whose next two tokens are not both numeric is passed
    over: the turn appends nothing and moves to the next token. *)
Lemma loop_body_skips_command tokens i coordinates token :
  getitem tokens i = Ok token ->
  is_move_or_line token = true ->
  (forall tx ty,
      getitem tokens (i + 1) = Ok tx -> getitem tokens (i + 2) = Ok ty ->
      is_numeric tx = false \/ is_numeric ty = false) ->
  loop_body tokens i coordinates = Ok ((i + 1)%nat, coordinates).
Proof.
  intros Htok Hml Hops. unfold loop_body, float_at. rewrite Htok.
  cbn [bind]. rewrite Hml.
  destruct (i + 2 <? length tokens)%nat; [|reflexivity].
  destruct (getitem tokens (i + 1)) as [tx|e1] eqn:E1.
  2:{ unfold getitem in E1. destruct (nth_error tokens (i + 1)); [discriminate|].
      injection E1 as <-. reflexivity. }
  cbn [bind].
  destruct (float tx) as [x|ex] eqn:Ex;
    [|rewrite (float_raises _ _ Ex); reflexivity].
  cbn [bind].
  destruct (getitem tokens (i + 2)) as [ty|e2] eqn:E2.
  - cbn [bind].
    destruct (float ty) as [y|ey] eqn:Ey;
      [|rewrite (float_raises _ _ Ey); reflexivity].
    exfalso. destruct (Hops tx ty eq_refl eq_refl) as [H|H];
      unfold is_numeric in H; rewrite ?Ex, ?Ey in H; discriminate H.
  - unfold getitem in E2. destruct (nth_error tokens (i + 2)); [discriminate|].
    injection E2 as <-. reflexivity.
Qed.

(** *** Properties of the parser *)

(** C10: the path parser is total.  For every path string the loop ends
    and returns a list of points, no exception leaves [parse_svg_path]; a turn
    of the loop at a token that is neither [M] nor [L] nor numeric passes over
    it; and a string with no point in it parses to the empty list, which is
    a result and not an error. *)
Theorem parse_svg_path_never_raises (path_string : string) :
  (exists coordinates, parse_svg_path path_string = Ok coordinates) /\
  (let tokens := findall (strip (list_ascii_of_string path_string)) in
   forall i coordinates,
     (i < length tokens)%nat ->
     (exists st, loop_body tokens i coordinates = Ok st) /\
     (forall token,
         getitem tokens i = Ok token ->
         is_move_or_line token = false ->
         is_numeric token = false ->
         loop_body tokens i coordinates = Ok ((i + 1)%nat, coordinates))) /\
  parse_svg_path "" = Ok [] /\
  parse_svg_path "Q 1.2.3 . x Z M 7" = Ok [].
Proof.
  split; [|split; [|split]].
  - eexists. apply parse_svg_path_parse_tokens.
  - intros tokens i coordinates Hi. split.
    + destruct (loop_body_parse_tokens tokens i coordinates Hi)
        as (i' & ps & H & _). eauto.
    + intros token. apply loop_body_skips.
  - run_parser. reflexivity.
  - run_parser. reflexivity.
Qed.



(** C8: the tokenizer treats a minus sign as a separator.  For every path
    string, the parse is the parse of the string with a space in place of
    each minus sign, and no token holds a minus sign: the sign of a negative
    coordinate is lost.  The path ["M -5,-6 L -7,8"] parses to the points
    (5, 6) and (7, 8). *)
Theorem minus_sign_is_separator :
  (forall path_string,
      parse_svg_path (minus_to_space path_string) = parse_svg_path path_string) /\
  (forall path_string token,
      In token (findall (strip (list_ascii_of_string path_string))) ->
      ~ In "-"%char (list_ascii_of_string token)) /\
  parse_svg_path "M -5,-6 L -7,8" = Ok [(5, 6); (7, 8)].
Proof.
  split; [|split].
  - intros path_string. rewrite !parse_svg_path_parse_tokens.
    unfold minus_to_space. rewrite list_ascii_of_string_of_list_ascii.
    rewrite !findall_strip. unfold findall.
    rewrite findall_from_map_separator; [reflexivity|].
    intros c. destruct (Ascii.eqb c "-") eqn:E; [|now left].
    right. apply Ascii.eqb_eq in E. subst c. split; reflexivity.
  - intros path_string token Hin. apply token_without; [reflexivity|].
    pose proof (findall_tokens (strip (list_ascii_of_string path_string))) as H.
    rewrite Forall_forall in H. now apply H.
  - run_parser. repeat f_equal; lra.
Qed.

(** ** The scaler and the simplifier *)

Lemma fold_scale_append self coordinates :
  forall scaled,
    fold_left
      (fun scaled '(x, y) =>
         let scaled_x := x * scale_x self in
         let scaled_y := y * scale_y self in
         scaled ++ [(scaled_x, scaled_y)])
      coordinates scaled =
    scaled ++ map (scale_point self) coordinates.
Proof.
  induction coordinates as [|[x y] coordinates IH]; intros scaled; simpl.
  - now rewrite app_nil_r.
  - rewrite IH, <- app_assoc. reflexivity.
Qed.

Lemma scale_coordinates_map self coordinates :
  scale_coordinates self coordinates = map (scale_point self) coordinates.
Proof. unfold scale_coordinates. now rewrite fold_scale_append. Qed.


Lemma distance_same p : distance p p = 0.
Proof.
  destruct p as [x y]. unfold distance.
  replace ((x - x) ^ 2 + (y - y) ^ 2) with 0 by ring. apply sqrt_0.
Qed.

(** The test [distance >= tolerance] without the square root. *)
Lemma distance_ge_iff p q tolerance :
  0 <= tolerance ->
  distance p q >= tolerance <->
  tolerance ^ 2 <= (fst q - fst p) ^ 2 + (snd q - snd p) ^ 2.
Proof.
  destruct p as [px py], q as [qx qy]. unfold distance, fst, snd. intros Ht.
  set (d := (qx - px) ^ 2 + (qy - py) ^ 2).
  assert (Hd : 0 <= d)
    by (unfold d; apply Rplus_le_le_0_compat; apply pow2_ge_0).
  pose proof (pow2_ge_0 tolerance) as Ht2.
  rewrite <- (sqrt_pow2 tolerance Ht) at 1. split; intros H.
  - apply Rge_le in H. now apply sqrt_le_0 in H.
  - apply Rle_ge. now apply sqrt_le_1.
Qed.

Lemma distance_scale self s p q :
  0 <= s -> scale_x self = s -> scale_y self = s ->
  distance (scale_point self p) (scale_point self q) = s * distance p q.
Proof.
  destruct p as [px py], q as [qx qy]. intros Hs Hx Hy.
  unfold distance, scale_point. rewrite Hx, Hy.
  replace ((qx * s - px * s) ^ 2 + (qy * s - py * s) ^ 2)
    with (s ^ 2 * ((qx - px) ^ 2 + (qy - py) ^ 2)) by ring.
  rewrite sqrt_mult;
    [| apply pow2_ge_0 | apply Rplus_le_le_0_compat; apply pow2_ge_0].
  rewrite sqrt_pow2 by assumption. reflexivity.
Qed.

Lemma simplify_step_keep tolerance simplified curr :
  distance (last simplified (0, 0)) curr >= tolerance ->
  simplify_step tolerance simplified curr = simplified ++ [curr].
Proof.
  intros H. unfold simplify_step.
  destruct (Rge_dec _ _) as [_|N]; [reflexivity | contradiction].
Qed.

Lemma simplify_step_drop tolerance simplified curr :
  distance (last simplified (0, 0)) curr < tolerance ->
  simplify_step tolerance simplified curr = simplified.
Proof.
  intros H. unfold simplify_step.
  destruct (Rge_dec _ _) as [G|_]; [|reflexivity].
  apply Rlt_not_ge in H. contradiction.
Qed.

(** The loop of [simplify_polygon] is the greedy walk from the point kept
    last. *)
Lemma fold_simplify_step_greedy tolerance rest :
  forall simplified kept,
  exists out,
    fold_left (simplify_step tolerance) rest (simplified ++ [kept]) =
    simplified ++ kept :: out /\
    greedy_walk tolerance kept rest out.
Proof.
  induction rest as [|p rest IH]; intros simplified kept.
  - exists []. split; [reflexivity | constructor].
  - simpl fold_left.
    destruct (Rge_dec (distance kept p) tolerance) as [G|N].
    + rewrite simplify_step_keep by (rewrite last_last; exact G).
      destruct (IH (simplified ++ [kept]) p) as (out & Hout & Hwalk).
      exists (p :: out). split.
      * rewrite Hout, <- app_assoc. reflexivity.
      * now constructor.
    + apply Rnot_ge_lt in N.
      rewrite simplify_step_drop by (rewrite last_last; exact N).
      destruct (IH simplified kept) as (out & Hout & Hwalk).
      exists out. split; [exact Hout | now apply greedy_drop].
Qed.

(** The walk decides the output: two outputs of the same walk are equal. *)
Lemma greedy_walk_deterministic tolerance kept rest out1 out2 :
  greedy_walk tolerance kept rest out1 ->
  greedy_walk tolerance kept rest out2 -> out1 = out2.
Proof.
  intros H1. revert out2.
  induction H1 as [kept | kept p rest out G _ IH | kept p rest out L _ IH];
    intros out2 H2; inversion H2; subst; try reflexivity;
    try (f_equal; now apply IH); try (now apply IH); lra.
Qed.


Lemma last_map_scale self simplified :
  last (map (scale_point self) simplified) (0, 0) =
  scale_point self (last simplified (0, 0)).
Proof.
  induction simplified as [|p [|q l] IH].
  - simpl. f_equal; ring.
  - reflexivity.
  - exact IH.
Qed.

Lemma fold_simplify_step_scale self s tolerance rest :
  0 < s -> scale_x self = s -> scale_y self = s ->
  forall simplified,
    fold_left (simplify_step (s * tolerance)) (map (scale_point self) rest)
      (map (scale_point self) simplified) =
    map (scale_point self) (fold_left (simplify_step tolerance) rest simplified).
Proof.
  intros Hs Hx Hy. induction rest as [|p rest IH]; intros simplified;
    [reflexivity|].
  simpl. rewrite <- IH. f_equal.
  unfold simplify_step. rewrite last_map_scale.
  rewrite (distance_scale self s) by (assumption || lra).
  destruct (Rge_dec (distance (last simplified (0, 0)) p) tolerance) as [G|N];
    destruct (Rge_dec _ _) as [G'|N'].
  - rewrite map_app. reflexivity.
  - exfalso. apply N'. nra.
  - exfalso. apply N. nra.
  - reflexivity.
Qed.

Lemma distance_lt p q tolerance :
  0 <= tolerance ->
  (fst q - fst p) ^ 2 + (snd q - snd p) ^ 2 < tolerance ^ 2 ->
  distance p q < tolerance.
Proof.
  intros Ht H. apply Rnot_ge_lt. intros G.
  apply distance_ge_iff in G; [lra | exact Ht].
Qed.

Lemma distance_ge p q tolerance :
  0 <= tolerance ->
  tolerance ^ 2 <= (fst q - fst p) ^ 2 + (snd q - snd p) ^ 2 ->
  distance p q >= tolerance.
Proof. intros Ht H. now apply distance_ge_iff. Qed.

(** Above the guard, [simplify_polygon] is its loop from the first point. *)
Lemma simplify_polygon_loop first rest tolerance :
  (3 <= length rest)%nat ->
  simplify_polygon (first :: rest) tolerance =
  fold_left (simplify_step tolerance) rest [first].
Proof.
  intros H. unfold simplify_polygon.
  destruct (length (first :: rest) <=? 3)%nat eqn:E; [|reflexivity].
  apply Nat.leb_le in E. simpl in E. lia.
Qed.

(** One turn of the loop on given points: the point is kept or dropped by
    comparing squares. *)
Lemma fold_simplify_step_keep tolerance p rest simplified :
  distance (last simplified (0, 0)) p >= tolerance ->
  fold_left (simplify_step tolerance) (p :: rest) simplified =
  fold_left (simplify_step tolerance) rest (simplified ++ [p]).
Proof. intros H. simpl. now rewrite simplify_step_keep. Qed.

Lemma fold_simplify_step_drop tolerance p rest simplified :
  distance (last simplified (0, 0)) p < tolerance ->
  fold_left (simplify_step tolerance) (p :: rest) simplified =
  fold_left (simplify_step tolerance) rest simplified.
Proof. intros H. simpl. now rewrite simplify_step_drop. Qed.

Ltac keep_point :=
  rewrite fold_simplify_step_keep;
  [ cbn [app] | cbn [last]; apply distance_ge; cbn [fst snd]; lra ].

Ltac drop_point :=
  rewrite fold_simplify_step_drop;
  [ | cbn [last]; apply distance_lt; cbn [fst snd]; lra ].

(** At or under the guard, [simplify_polygon] gives its input back. *)
Lemma simplify_polygon_guard (coordinates : list Point) (tolerance : R) :
  (length coordinates <= 3)%nat ->
  simplify_polygon coordinates tolerance = coordinates.
Proof.
  intros H. unfold simplify_polygon.
  apply Nat.leb_le in H. rewrite H. reflexivity.
Qed.

(** *** Properties of the simplifier *)

(** C6: for every list of 3 or fewer points and every tolerance,
    [simplify_polygon] returns the list unchanged. *)
Theorem simplify_polygon_small (coordinates : list Point) (tolerance : R) :
  (length coordinates <= 3)%nat ->
  simplify_polygon coordinates tolerance = coordinates.
Proof.
  intros H. unfold simplify_polygon.
  apply Nat.leb_le in H. rewrite H. reflexivity.
Qed.

Lemma simplify_polygon_small_witness :
  simplify_polygon [(0, 0); (0, 0); (0, 0)] 5 = [(0, 0); (0, 0); (0, 0)].
Proof.
  apply (simplify_polygon_small [(0, 0); (0, 0); (0, 0)] 5). simpl. lia.
Defined.



(** C1 as the specification states it fails: the list has three points, so
    the guard returns it whole and the second point is not dropped. *)
Lemma simplify_three_points_counterexample :
  simplify_polygon [(0, 0); (0.5, 0); (2, 0)] 1 <> [(0, 0); (2, 0)].
Proof.
  rewrite simplify_polygon_guard by (simpl; lia).
  intros H. injection H as H _. lra.
Qed.

(** C1, amended: with tolerance 1 the three-point list
    [(0,0), (0.5,0), (2,0)] comes back unchanged, for a list of 3 or fewer
    points is never simplified.  The loop itself does drop a point at
    distance 0.5 from the point kept last: from the kept point (0,0) it turns
    the points (0.5,0), (2,0) into (0,0), (2,0), and the four-point list
    [(0,0), (0.5,0), (2,0), (4,0)] is simplified to [(0,0), (2,0), (4,0)]. *)
Theorem simplify_three_points :
  simplify_polygon [(0, 0); (0.5, 0); (2, 0)] 1 = [(0, 0); (0.5, 0); (2, 0)] /\
  fold_left (simplify_step 1) [(0.5, 0); (2, 0)] [(0, 0)] = [(0, 0); (2, 0)] /\
  simplify_polygon [(0, 0); (0.5, 0); (2, 0); (4, 0)] 1 =
  [(0, 0); (2, 0); (4, 0)].
Proof.
  split; [|split].
  - apply simplify_polygon_guard. simpl. lia.
  - drop_point. keep_point. reflexivity.
  - rewrite simplify_polygon_loop by (simpl; lia).
    drop_point. keep_point. keep_point. reflexivity.
Qed.




(** *** Scaling and simplification *)

(** In exact arithmetic the same scale [s > 0] along both axes commutes with
    the simplification, the tolerance being scaled too. *)
Lemma simplify_polygon_scale self s coordinates tolerance :
  0 < s -> scale_x self = s -> scale_y self = s ->
  simplify_polygon (scale_coordinates self coordinates) (s * tolerance) =
  scale_coordinates self (simplify_polygon coordinates tolerance).
Proof.
  intros Hs Hx Hy. rewrite !scale_coordinates_map.
  unfold simplify_polygon. rewrite length_map.
  destruct (length coordinates <=? 3)%nat; [reflexivity|].
  destruct coordinates as [|first rest]; [reflexivity|].
  simpl map.
  apply (fold_simplify_step_scale self s tolerance rest Hs Hx Hy [first]).
Qed.

(** *** On binary64 floats *)

Section Binary64.

Set Warnings "-inexact-float".
Local Open Scope float_scope.

Lemma fold_scale_append_f64 self coordinates :
  forall scaled,
    fold_left
      (fun scaled '(x, y) =>
         let scaled_x := x * F64.scale_x self in
         let scaled_y := y * F64.scale_y self in
         scaled ++ [(scaled_x, scaled_y)])
      coordinates scaled =
    scaled ++ map (F64.scale_point self) coordinates.
Proof.
  induction coordinates as [|[x y] coordinates IH]; intros scaled; simpl.
  - now rewrite app_nil_r.
  - rewrite IH, <- app_assoc. reflexivity.
Qed.

Lemma scale_coordinates_map_f64 self coordinates :
  F64.scale_coordinates self coordinates =
  map (F64.scale_point self) coordinates.
Proof. apply (fold_scale_append_f64 self coordinates []). Qed.

(** Once a turn of the loop has raised, the loop has. *)
Lemma fold_simplify_step_raise tolerance rest e :
  fold_left
    (fun simplified curr =>
       simplified <- simplified ;; F64.simplify_step tolerance simplified curr)
    rest (Raise e) = Raise e.
Proof. induction rest as [|c rest IH]; [reflexivity | exact IH]. Qed.

Lemma simplify_step_reaches tolerance simplified curr :
  F64.simplify_step tolerance simplified curr =
  (keep <- F64.reaches tolerance (last simplified (0, 0)) curr ;;
   Ok (if keep then simplified ++ [curr] else simplified)).
Proof. reflexivity. Qed.

Lemma last_map_nonempty {A B : Type} (f : A -> B) (l : list A) (a : A) (b : B) :
  l <> [] -> last (map f l) b = f (last l a).
Proof.
  induction l as [|x l IH]; intros H; [contradiction|].
  destruct l as [|y l]; [reflexivity|].
  change (last (map f (y :: l)) b = f (last (y :: l) a)).
  apply IH. discriminate.
Qed.

(** The loop on the scaled points follows the loop on the points as long as
    every comparison of a distance with the tolerance gives the same answer
    on both sides. *)
Lemma fold_simplify_step_agree self tolerance tolerance' coordinates rest :
  (forall prev curr,
      In prev coordinates -> In curr coordinates ->
      F64.reaches tolerance' (F64.scale_point self prev)
        (F64.scale_point self curr) =
      F64.reaches tolerance prev curr) ->
  incl rest coordinates ->
  forall simplified,
    simplified <> [] -> incl simplified coordinates ->
    fold_left
      (fun simplified curr =>
         simplified <- simplified ;; F64.simplify_step tolerance' simplified curr)
      (map (F64.scale_point self) rest)
      (Ok (map (F64.scale_point self) simplified)) =
    (simplified <-
       fold_left
         (fun simplified curr =>
            simplified <- simplified ;;
            F64.simplify_step tolerance simplified curr)
         rest (Ok simplified) ;;
     Ok (map (F64.scale_point self) simplified)).
Proof.
  intros Hagree.
  induction rest as [|curr rest IH]; intros Hrest simplified Hne Hincl.
  - reflexivity.
  - cbn [map fold_left bind]. rewrite !simplify_step_reaches.
    rewrite (last_map_nonempty _ simplified (0, 0) (0, 0) Hne).
    assert (Hlast : In (last simplified (0, 0)) coordinates).
    { apply Hincl. destruct (exists_last Hne) as (l & a & ->).
      rewrite last_last. apply in_or_app. right. left. reflexivity. }
    rewrite (Hagree _ curr Hlast (Hrest curr (in_eq _ _))).
    destruct (F64.reaches tolerance (last simplified (0, 0)) curr)
      as [keep|e]; cbn [bind].
    + destruct keep.
      * rewrite <- (IH (fun p H => Hrest p (in_cons _ _ _ H))
                      (simplified ++ [curr])).
        -- now rewrite map_app.
        -- intros H. now apply app_eq_nil in H as [_ H].
        -- intros p H. apply in_app_or in H as [H|[<-|[]]];
             [now apply Hincl | apply Hrest, in_eq].
      * apply IH; auto. intros p H. apply Hrest, in_cons, H.
    + now rewrite !fold_simplify_step_raise.
Qed.

Lemma simplify_polygon_agree self coordinates tolerance tolerance' :
  (forall prev curr,
      In prev coordinates -> In curr coordinates ->
      F64.reaches tolerance' (F64.scale_point self prev)
        (F64.scale_point self curr) =
      F64.reaches tolerance prev curr) ->
  F64.simplify_polygon (F64.scale_coordinates self coordinates) tolerance' =
  (simplified <- F64.simplify_polygon coordinates tolerance ;;
   Ok (F64.scale_coordinates self simplified)).
Proof.
  intros Hagree. rewrite scale_coordinates_map_f64.
  unfold F64.simplify_polygon. rewrite length_map.
  destruct (length coordinates <=? 3)%nat.
  - cbn [bind]. now rewrite scale_coordinates_map_f64.
  - destruct coordinates as [|first rest]; [reflexivity|].
    cbn [map].
    etransitivity.
    + apply (fold_simplify_step_agree self tolerance tolerance'
               (first :: rest) rest Hagree (fun p H => in_cons _ _ _ H)
               [first]); [discriminate|].
      intros p [<-|[]]. now left.
    + destruct (fold_left _ rest (Ok [first])) as [l|e]; cbn [bind];
        [now rewrite scale_coordinates_map_f64 | reflexivity].
Qed.

Lemma fold_simplify_step_cons tolerance simplified curr rest distance :
  F64.distance (last simplified (0, 0)) curr = Ok distance ->
  fold_left
    (fun simplified curr =>
       simplified <- simplified ;; F64.simplify_step tolerance simplified curr)
    (curr :: rest) (Ok simplified) =
  fold_left
    (fun simplified curr =>
       simplified <- simplified ;; F64.simplify_step tolerance simplified curr)
    rest
    (Ok (if tolerance <=? distance then simplified ++ [curr] else simplified)).
Proof.
  intros H. cbn [fold_left bind]. rewrite simplify_step_reaches.
  unfold F64.reaches. rewrite H. reflexivity.
Qed.

(** The loop only appends: what it returns starts with the points kept so
    far. *)
Lemma fold_simplify_step_prefix tolerance rest :
  forall simplified out,
    fold_left
      (fun simplified curr =>
         simplified <- simplified ;; F64.simplify_step tolerance simplified curr)
      rest (Ok simplified) = Ok out ->
    exists kept, out = simplified ++ kept.
Proof.
  induction rest as [|curr rest IH]; intros simplified out H.
  - injection H as <-. exists []. now rewrite app_nil_r.
  - cbn [fold_left bind] in H. rewrite simplify_step_reaches in H.
    destruct (F64.reaches tolerance (last simplified (0, 0)) curr)
      as [keep|e]; cbn [bind] in H.
    + destruct keep.
      * apply IH in H as (kept & ->). exists (curr :: kept).
        now rewrite <- app_assoc.
      * now apply IH.
    + rewrite fold_simplify_step_raise in H. discriminate.
Qed.

(** A float that is at most 2 is at most 4. *)
Lemma leb_2_4 (x : PrimFloat.float) : (x <=? 2) = true -> (x <=? 4) = true.
Proof.
  rewrite !leb_spec.
  change (Prim2SF 2) with (S754_finite false 4503599627370496 (-51)).
  change (Prim2SF 4) with (S754_finite false 4503599627370496 (-50)).
  destruct (Prim2SF x) as [s|s| |s m e]; unfold SFleb, SFcompare.
  - destruct s; reflexivity.
  - destruct s; intros H; (discriminate H || reflexivity).
  - intros H. discriminate H.
  - destruct s; [reflexivity|].
    destruct (Z.compare_spec e (-51)) as [->|Hlt|Hgt].
    + reflexivity.
    + intros _. destruct (Z.compare_spec e (-50)); (reflexivity || lia).
    + intros H. discriminate H.
Qed.

Lemma third_init : F64.init 1920 1080 640 360 = Ok F64.third.
Proof. vm_compute. reflexivity. Qed.

Lemma stretch_init : F64.init 1 1 4 1 = Ok F64.stretch.
Proof. vm_compute. reflexivity. Qed.

(** The same scale along both axes is not enough on floats.  The points
    (1.1, 0) and (1.6, 0) are 0.5 apart; their products by 640 / 1920 are
    rounded and are 0.16666666666666663 apart, below the tolerance
    0.16666666666666666 that is the product of 0.5.  So (1.6, 0) survives
    before scaling and not after. *)
Lemma third_does_not_commute :
  F64.simplify_polygon
    (F64.scale_coordinates F64.third [(0, 0); (1.1, 0); (1.6, 0); (500, 0)])
    (F64.scale_x F64.third * 0.5) =
  Ok [(0, 0); (0.3666666666666667, 0); (166.66666666666666, 0)] /\
  (simplified <-
     F64.simplify_polygon [(0, 0); (1.1, 0); (1.6, 0); (500, 0)] 0.5 ;;
   Ok (F64.scale_coordinates F64.third simplified)) =
  Ok [(0, 0); (0.3666666666666667, 0); (0.5333333333333333, 0);
      (166.66666666666666, 0)].
Proof. vm_compute. split; reflexivity. Qed.

(** Different scales along the two axes change which points survive:
    whatever the tolerance after scaling, the outputs differ. *)
Lemma stretch_does_not_commute tolerance' :
  F64.simplify_polygon
    (F64.scale_coordinates F64.stretch [(0, 0); (1, 0); (0, 2); (0, 100)])
    tolerance' <>
  (simplified <-
     F64.simplify_polygon [(0, 0); (1, 0); (0, 2); (0, 100)] 2 ;;
   Ok (F64.scale_coordinates F64.stretch simplified)).
Proof.
  replace (simplified <-
             F64.simplify_polygon [(0, 0); (1, 0); (0, 2); (0, 100)] 2 ;;
           Ok (F64.scale_coordinates F64.stretch simplified))
    with (Ok [(0, 0); (0, 2); (0, 100)]
          : result (list (PrimFloat.float * PrimFloat.float)))
    by (vm_compute; reflexivity).
  replace (F64.scale_coordinates F64.stretch
             [(0, 0); (1, 0); (0, 2); (0, 100)])
    with [(0, 0); (4, 0); (0, 2); (0, 100)] by (vm_compute; reflexivity).
  unfold F64.simplify_polygon. cbn [length Nat.leb].
  rewrite (fold_simplify_step_cons tolerance' [(0, 0)] (4, 0) _ 4)
    by (vm_compute; reflexivity).
  destruct (tolerance' <=? 4) eqn:E4.
  - intros H. apply fold_simplify_step_prefix in H as (kept & H).
    apply (f_equal (fun l => match l with
                             | _ :: (x, _) :: _ => x =? 0
                             | _ => false
                             end)) in H.
    vm_compute in H. discriminate H.
  - rewrite (fold_simplify_step_cons tolerance' [(0, 0)] (0, 2) _ 2)
      by (vm_compute; reflexivity).
    destruct (tolerance' <=? 2) eqn:E2.
    + apply leb_2_4 in E2. congruence.
    + rewrite (fold_simplify_step_cons tolerance' [(0, 0)] (0, 100) _ 100)
        by (vm_compute; reflexivity).
      cbn [fold_left].
      destruct (tolerance' <=? 100); intros H; discriminate H.
Qed.

(** C5 as the specification states it fails on the floats of the program.
    The converter from 1920x1080 to 640x360 has the same positive scale
    640 / 1920 along both axes, the tolerance 0.5 is positive, and for the
    points (0,0), (1.1,0), (1.6,0), (500,0) simplifying the scaled points
    with the scaled tolerance keeps three points, while scaling the
    simplified points gives four. *)
Lemma scale_commutes_with_simplify_counterexample :
  F64.init 1920 1080 640 360 = Ok F64.third /\
  F64.scale_x F64.third = F64.scale_y F64.third /\
  (0 <? F64.scale_x F64.third) = true /\
  (0 <? 0.5) = true /\
  F64.simplify_polygon
    (F64.scale_coordinates F64.third [(0, 0); (1.1, 0); (1.6, 0); (500, 0)])
    (F64.scale_x F64.third * 0.5) <>
  (simplified <-
     F64.simplify_polygon [(0, 0); (1.1, 0); (1.6, 0); (500, 0)] 0.5 ;;
   Ok (F64.scale_coordinates F64.third simplified)).
Proof.
  split; [exact third_init|].
  split; [vm_compute; reflexivity|].
  split; [vm_compute; reflexivity|].
  split; [vm_compute; reflexivity|].
  destruct third_does_not_commute as [-> ->].
  intros H. discriminate H.
Qed.

(** C5, amended: on the floats of the program.  Scaling multiplies each
    point by the two factors, in order and without changing the length.
    Scale-then-simplify is simplify-then-scale for every list of points and
    every two tolerances, before and after scaling, such that for every two
    points of the list the comparison of their distance with the tolerance
    gives the same answer (or raises the same exception) after scaling as
    before.  The same positive scale along both axes with the tolerance
    scaled by it does not ensure this: for the scale 640 / 1920, the
    tolerance 0.5 and the points (0,0), (1.1,0), (1.6,0), (500,0) the two
    outputs differ.  And with the scales 4 and 1 there are points and a
    tolerance for which the outputs differ whatever the tolerance after
    scaling. *)
Theorem scale_commutes_with_simplify :
  (forall self coordinates,
      F64.scale_coordinates self coordinates =
      map (fun '(x, y) => (x * F64.scale_x self, y * F64.scale_y self))
        coordinates /\
      length (F64.scale_coordinates self coordinates) = length coordinates) /\
  (forall self coordinates tolerance tolerance',
      (forall prev curr,
          In prev coordinates -> In curr coordinates ->
          F64.reaches tolerance' (F64.scale_point self prev)
            (F64.scale_point self curr) =
          F64.reaches tolerance prev curr) ->
      F64.simplify_polygon (F64.scale_coordinates self coordinates)
        tolerance' =
      (simplified <- F64.simplify_polygon coordinates tolerance ;;
       Ok (F64.scale_coordinates self simplified))) /\
  (exists self coordinates tolerance,
      F64.init 1920 1080 640 360 = Ok self /\
      (0 <? tolerance) = true /\ (0 <? F64.scale_x self) = true /\
      F64.scale_x self = F64.scale_y self /\
      F64.simplify_polygon (F64.scale_coordinates self coordinates)
        (F64.scale_x self * tolerance) <>
      (simplified <- F64.simplify_polygon coordinates tolerance ;;
       Ok (F64.scale_coordinates self simplified))) /\
  (exists self coordinates tolerance,
      F64.init 1 1 4 1 = Ok self /\
      (0 <? tolerance) = true /\ (0 <? F64.scale_x self) = true /\
      (0 <? F64.scale_y self) = true /\
      (F64.scale_x self =? F64.scale_y self) = false /\
      forall tolerance',
        F64.simplify_polygon (F64.scale_coordinates self coordinates)
          tolerance' <>
        (simplified <- F64.simplify_polygon coordinates tolerance ;;
         Ok (F64.scale_coordinates self simplified))).
Proof.
  split; [|split; [|split]].
  - intros self coordinates. split.
    + apply scale_coordinates_map_f64.
    + rewrite scale_coordinates_map_f64. apply length_map.
  - intros self coordinates tolerance tolerance'.
    apply simplify_polygon_agree.
  - exists F64.third, [(0, 0); (1.1, 0); (1.6, 0); (500, 0)], 0.5.
    split; [exact third_init|].
    split; [vm_compute; reflexivity|].
    split; [vm_compute; reflexivity|].
    split; [vm_compute; reflexivity|].
    destruct third_does_not_commute as [-> ->].
    intros H. discriminate H.
  - exists F64.stretch, [(0, 0); (1, 0); (0, 2); (0, 100)], 2.
    split; [exact stretch_init|].
    split; [vm_compute; reflexivity|].
    split; [vm_compute; reflexivity|].
    split; [vm_compute; reflexivity|].
    split; [vm_compute; reflexivity|].
    apply stretch_does_not_commute.
Qed.

Lemma scale_commutes_with_simplify_witness :
  F64.simplify_polygon
    (F64.scale_coordinates F64.third [(0, 0); (3, 0); (4.5, 0); (9, 0)])
    (F64.scale_x F64.third * 3) =
  (simplified <- F64.simplify_polygon [(0, 0); (3, 0); (4.5, 0); (9, 0)] 3 ;;
   Ok (F64.scale_coordinates F64.third simplified)).
Proof.
  apply (proj1 (proj2 scale_commutes_with_simplify) F64.third
           [(0, 0); (3, 0); (4.5, 0); (9, 0)] 3 (F64.scale_x F64.third * 3)).
  intros prev curr Hprev Hcurr. cbn [In] in Hprev, Hcurr.
  destruct Hprev as [<-|[<-|[<-|[<-|[]]]]];
    destruct Hcurr as [<-|[<-|[<-|[<-|[]]]]];
    vm_compute; reflexivity.
Defined.

(** *** Overflow *)

Lemma distance_raises prev curr e :
  F64.distance prev curr = Raise e <->
  e = OverflowError /\
  (F64.overflows (fst curr - fst prev) = true \/
   F64.overflows (snd curr - snd prev) = true).
Proof.
  destruct prev as [prev_x prev_y], curr as [curr_x curr_y].
  unfold F64.distance, F64.pow_2. cbn [fst snd].
  destruct (F64.overflows (curr_x - prev_x));
    destruct (F64.overflows (curr_y - prev_y)); cbn [bind]; split;
    try (intros [= <-]; auto);
    try (intros [-> _]; reflexivity);
    try discriminate.
  intros [_ [H|H]]; discriminate H.
Qed.

Lemma fold_simplify_step_raises tolerance rest e :
  forall simplified,
    (forall e', simplified = Raise e' -> e' = OverflowError) ->
    fold_left
      (fun simplified curr =>
         simplified <- simplified ;; F64.simplify_step tolerance simplified curr)
      rest simplified = Raise e ->
    e = OverflowError.
Proof.
  induction rest as [|curr rest IH]; intros simplified Hs H.
  - now apply Hs.
  - cbn [fold_left] in H. apply IH in H; [exact H|].
    intros e' He'. destruct simplified as [l|e0]; cbn [bind] in He'.
    + rewrite simplify_step_reaches in He'. unfold F64.reaches in He'.
      destruct (F64.distance (last l (0, 0)) curr) as [d|e1] eqn:Ed;
        cbn [bind] in He'; [discriminate He'|].
      injection He' as <-. now apply distance_raises in Ed as [-> _].
    + injection He' as <-. now apply Hs.
Qed.

(** X21: [simplify_polygon] can raise.  On floats the only exception that
    leaves it is [OverflowError], and only for more than 3 points; the
    distance raises it exactly when the difference of the two points along
    one axis is finite and its square is not; when this happens between the
    first two of more than 3 points, [simplify_polygon] raises, whatever the
    tolerance and the points that follow.  A difference of 2^512 is enough,
    the float below 2^512 is not. *)
Theorem simplify_polygon_overflow :
  (forall coordinates tolerance e,
      F64.simplify_polygon coordinates tolerance = Raise e ->
      e = OverflowError /\ (3 < length coordinates)%nat) /\
  (forall prev curr e,
      F64.distance prev curr = Raise e <->
      e = OverflowError /\
      (F64.overflows (fst curr - fst prev) = true \/
       F64.overflows (snd curr - snd prev) = true)) /\
  (forall first second rest tolerance,
      (2 <= length rest)%nat ->
      F64.distance first second = Raise OverflowError ->
      F64.simplify_polygon (first :: second :: rest) tolerance =
      Raise OverflowError) /\
  F64.overflows 0x1p512 = true /\
  F64.overflows 0x1.fffffffffffffp511 = false /\
  F64.simplify_polygon [(0, 0); (0x1p512, 0); (1, 1); (2, 2)] 1 =
  Raise OverflowError.
Proof.
  split; [|split; [|split]].
  - intros coordinates tolerance e. unfold F64.simplify_polygon.
    destruct (length coordinates <=? 3)%nat eqn:Hlen; [discriminate|].
    apply Nat.leb_gt in Hlen.
    destruct coordinates as [|first rest]; [discriminate|].
    intros H. split; [|exact Hlen].
    apply fold_simplify_step_raises in H; [exact H | discriminate].
  - apply distance_raises.
  - intros first second rest tolerance Hlen Hd.
    unfold F64.simplify_polygon.
    replace (length (first :: second :: rest) <=? 3)%nat with false
      by (symmetry; apply Nat.leb_gt; simpl; lia).
    cbn [fold_left bind]. rewrite simplify_step_reaches.
    unfold F64.reaches. cbn [last]. rewrite Hd. cbn [bind].
    apply fold_simplify_step_raise.
  - vm_compute. repeat split; reflexivity.
Qed.

Lemma simplify_polygon_overflow_witness :
  F64.simplify_polygon [(0, 0); (0x1p512, 0); (1, 1); (0, 0); (7, 7)] 1 =
  Raise OverflowError.
Proof.
  apply (proj1 (proj2 (proj2 simplify_polygon_overflow)) (0, 0) (0x1p512, 0)
           [(1, 1); (0, 0); (7, 7)] 1).
  - simpl. lia.
  - vm_compute. reflexivity.
Defined.

End Binary64.

(** ** Centroid and rounding *)

Lemma round_half_even_near x z :
  IZR z - 1 / 2 < x < IZR z + 1 / 2 -> round_half_even x = z.
Proof.
  intros [Hlo Hhi]. unfold round_half_even.
  destruct (Rle_dec (IZR z) x) as [Hle|Hgt].
  - rewrite <- (Int_part_spec x z) by lra.
    destruct (Rlt_dec (x - IZR z) (1 / 2)) as [_|N]; [reflexivity | lra].
  - rewrite <- (Int_part_spec x (z - 1)) by (rewrite minus_IZR; lra).
    rewrite minus_IZR.
    destruct (Rlt_dec (x - (IZR z - 1)) (1 / 2)) as [L|_]; [lra|].
    destruct (Rlt_dec (1 / 2) (x - (IZR z - 1))) as [_|N]; [lia | lra].
Qed.

(** [round(x, 2)] of a value within half a hundredth of [z / 100]. *)
Lemma round_2_near x z :
  IZR z - 1 / 2 < x * 100 < IZR z + 1 / 2 -> round x 2 = IZR z / 100.
Proof.
  intros H. unfold round. replace (10 ^ 2) with 100 by (simpl; lra).
  now rewrite (round_half_even_near _ z).
Qed.

Lemma default_converter_init : init 1920 1080 1920 1080 = Ok default_converter.
Proof.
  unfold init, truediv.
  destruct (Req_dec_T 1920 0) as [E|_]; [lra|].
  destruct (Req_dec_T 1080 0) as [E|_]; [lra | reflexivity].
Qed.

(** C7: the path ["M0,0 L10,0 L10,10 Z"] parses to the points (0,0),
    (10,0), (10,10); scaled by 1 and 1 and simplified with tolerance 1 they
    are unchanged, and their centroid rounded to 2 decimals is (6.67, 3.33).
    The folder of the one file [triangle.svg] holding that path converts to
    the one record with these points, this centroid and 3 vertices. *)
Theorem triangle_example :
  parse_svg_path "M0,0 L10,0 L10,10 Z" = Ok [(0, 0); (10, 0); (10, 10)] /\
  init 1920 1080 1920 1080 = Ok default_converter /\
  scale_x default_converter = 1 /\ scale_y default_converter = 1 /\
  (let final :=
     simplify_polygon
       (scale_coordinates default_converter [(0, 0); (10, 0); (10, 10)]) 1 in
   let centroid := calculate_centroid final in
   final = [(0, 0); (10, 0); (10, 10)] /\
   (round (fst centroid) 2, round (snd centroid) 2) = (6.67, 3.33)) /\
  convert_svg_folder default_converter
    (Listing [mkSvgFile "triangle.svg" (Document ["M0,0 L10,0 L10,10 Z"] [])])
    true 1 =
  Ok [("triangle",
       mkTerritory "Triangle" [(0, 0); (10, 0); (10, 10)] (6.67, 3.33) 3)].
Proof.
  assert (Hparse : parse_svg_path "M0,0 L10,0 L10,10 Z" =
                   Ok [(0, 0); (10, 0); (10, 10)]).
  { run_parser. repeat f_equal; lra. }
  assert (Hfinal : simplify_polygon
            (scale_coordinates default_converter [(0, 0); (10, 0); (10, 10)]) 1 =
          [(0, 0); (10, 0); (10, 10)]).
  { rewrite simplify_polygon_guard
      by (rewrite scale_coordinates_map; simpl; lia).
    rewrite scale_coordinates_map. simpl. repeat f_equal; lra. }
  assert (Hcx : round (fst (calculate_centroid [(0, 0); (10, 0); (10, 10)])) 2 =
                6.67).
  { rewrite (round_2_near _ 667); [lra|].
    unfold calculate_centroid, sum. simpl. lra. }
  assert (Hcy : round (snd (calculate_centroid [(0, 0); (10, 0); (10, 10)])) 2 =
                3.33).
  { rewrite (round_2_near _ 333); [lra|].
    unfold calculate_centroid, sum. simpl. lra. }
  split; [exact Hparse|]. split; [exact default_converter_init|].
  split; [simpl; lra|]. split; [simpl; lra|]. split.
  - cbv zeta. rewrite Hfinal, Hcx, Hcy. split; reflexivity.
  - unfold convert_svg_folder, sorted. cbn [fold_left insert_sorted].
    unfold convert_file. cbn [bind document file_name].
    unfold parse_svg_file. cbn [fold_left]. unfold extend_with_path.
    cbn [bind String.eqb]. rewrite Hparse. cbn [bind try_except app].
    rewrite Hfinal, Hcx, Hcy. cbn [dict_set map length].
    replace (round 0 2) with 0 by (rewrite (round_2_near _ 0); lra).
    replace (round 10 2) with 10 by (rewrite (round_2_near _ 1000); lra).
    reflexivity.
Qed.

(** ** The folder and the process *)

Lemma init_fixed_source target_width target_height :
  init 1920 1080 target_width target_height =
  Ok (mkConverter 1920 1080 target_width target_height
        (target_width / 1920) (target_height / 1080)).
Proof.
  unfold init, truediv.
  destruct (Req_dec_T 1920 0) as [E|_]; [lra|].
  destruct (Req_dec_T 1080 0) as [E|_]; [lra | reflexivity].
Qed.

Lemma convert_svg_folder_empty self svg_folder simplify tolerance :
  svg_folder = Missing \/ svg_folder = Listing [] ->
  convert_svg_folder self svg_folder simplify tolerance = Ok [].
Proof. intros [-> | ->]; reflexivity. Qed.

(** C9: when the input folder does not exist, or exists and holds no file
    that matches [*.svg], [convert_svg_folder] returns the empty dataset and
    raises nothing, and the process ends with status 1: [main] calls
    [sys.exit(1)] because no territory was converted. *)
Theorem empty_folder_exits_1 (env : Environment) :
  folder_at env (input_folder env) = Missing \/
  folder_at env (input_folder env) = Listing [] ->
  (forall self simplify tolerance,
      convert_svg_folder self (folder_at env (input_folder env))
        simplify tolerance = Ok []) /\
  exit_status (main env) = 1%Z /\
  (mkdir_parent env (output_file env) = true -> main env = SystemExit 1).
Proof.
  intros Hfolder.
  assert (Hmain : main env =
                  if mkdir_parent env (output_file env) then SystemExit 1
                  else Unhandled OSError).
  { unfold main. cbv zeta.
    destruct (if (4 <? length (argv env))%nat then _ else _) as [w h].
    destruct (mkdir_parent env (output_file env)); [|reflexivity].
    cbn [negb]. rewrite init_fixed_source.
    now rewrite convert_svg_folder_empty. }
  split; [|split].
  - intros self simplify tolerance. now apply convert_svg_folder_empty.
  - rewrite Hmain. destruct (mkdir_parent env (output_file env)); reflexivity.
  - intros Hmkdir. rewrite Hmain, Hmkdir. reflexivity.
Qed.

Lemma empty_folder_exits_1_witness :
  exit_status (main no_folder) = 1%Z /\ main no_folder = SystemExit 1.
Proof.
  destruct (empty_folder_exits_1 no_folder (or_introl eq_refl)) as (_ & H1 & H2).
  split; [exact H1 | exact (H2 eq_refl)].
Defined.


(** * Further properties *)

(** ** Numerals *)

Lemma scan_decimal_number_chars cs :
  forall d d', scan_decimal cs d = Some d' ->
               forallb is_number_char cs = true.
Proof.
  induction cs as [|c cs IH]; intros d d' H; [reflexivity|].
  simpl in H. simpl. unfold is_number_char at 1.
  destruct (is_digit c).
  - simpl. eapply IH; eauto.
  - destruct (Ascii.eqb c "."); [|discriminate].
    destruct (dec_dot d); [discriminate|]. simpl. eapply IH; eauto.
Qed.

Lemma scan_decimal_nonneg cs :
  forall d d', (0 <= dec_digits d)%Z -> scan_decimal cs d = Some d' ->
               (0 <= dec_digits d')%Z.
Proof.
  induction cs as [|c cs IH]; intros d d' Hd H; cbn [scan_decimal] in H.
  - injection H as <-. exact Hd.
  - destruct (is_digit c).
    + eapply IH; [|exact H]. cbn [dec_digits]. unfold digit_value. lia.
    + destruct (Ascii.eqb c "."); [|discriminate].
      destruct (dec_dot d); [discriminate|].
      eapply IH; [|exact H]. exact Hd.
Qed.

Lemma float_nonneg token x : float token = Ok x -> 0 <= x.
Proof.
  unfold float, numeral.
  destruct (scan_decimal _ _) as [d|] eqn:E; [|discriminate].
  destruct (dec_count d =? 0)%nat; [discriminate|].
  intros [= <-]. apply scan_decimal_nonneg in E; [|simpl; lia].
  apply Rmult_le_pos.
  - now apply IZR_le.
  - apply Rlt_le, Rinv_0_lt_compat, pow_lt. lra.
Qed.

Lemma is_numeric_number_chars token :
  is_numeric token = true ->
  token <> "" /\ forallb is_number_char (list_ascii_of_string token) = true.
Proof.
  intros H. apply is_numeric_float in H. destruct H as [x H].
  unfold float, numeral in H.
  destruct (scan_decimal _ _) as [d|] eqn:E; [|discriminate]. split.
  - intros ->. simpl in E. injection E as <-. discriminate H.
  - eapply scan_decimal_number_chars; eauto.
Qed.

Lemma is_numeric_operand token :
  is_numeric token = true -> float_opt token = Some (operand token).
Proof.
  unfold is_numeric, float_opt, operand.
  destruct (float token); [reflexivity | discriminate].
Qed.

(** ** The parser, case by case *)

(** An induction along the turns of the loop: a token passed over, an [M]
    or [L] with its two operands, a bare pair. *)
Lemma parse_tokens_cases (P : list string -> list Point -> Prop) :
  P [] [] ->
  (forall t rest,
      P rest (parse_tokens rest) -> P (t :: rest) (parse_tokens rest)) ->
  (forall t tx ty rest x y,
      is_move_or_line t = true -> float tx = Ok x -> float ty = Ok y ->
      P rest (parse_tokens rest) ->
      P (t :: tx :: ty :: rest) ((x, y) :: parse_tokens rest)) ->
  (forall tx ty rest x y,
      is_move_or_line tx = false ->
      float tx = Ok x -> float ty = Ok y ->
      P rest (parse_tokens rest) ->
      P (tx :: ty :: rest) ((x, y) :: parse_tokens rest)) ->
  forall tokens, P tokens (parse_tokens tokens).
Proof.
  intros Hnil Hskip Hcmd Hbare tokens.
  remember (length tokens) as n eqn:Hn.
  assert (Hle : (length tokens <= n)%nat) by lia. clear Hn.
  revert tokens Hle. induction n as [|n IH]; intros [|t tokens] Hle;
    simpl in Hle; try lia; try exact Hnil.
  assert (IH1 := IH tokens ltac:(lia)).
  simpl parse_tokens. destruct (is_move_or_line t) eqn:Eml.
  - destruct tokens as [|tx [|ty rest]]; try (apply Hskip; exact IH1).
    assert (IH2 := IH rest ltac:(simpl in Hle; lia)).
    destruct (float_opt tx) as [x|] eqn:Ex; [|apply Hskip; exact IH1].
    destruct (float_opt ty) as [y|] eqn:Ey; [|apply Hskip; exact IH1].
    apply Hcmd; auto using float_opt_Some.
  - destruct (String.eqb t "Z"); [apply Hskip; exact IH1|].
    destruct tokens as [|ty rest]; [apply Hskip; exact IH1|].
    assert (IH2 := IH rest ltac:(simpl in Hle; lia)).
    destruct (float_opt t) as [x|] eqn:Ex; [|apply Hskip; exact IH1].
    destruct (float_opt ty) as [y|] eqn:Ey; [|apply Hskip; exact IH1].
    apply Hbare; auto using float_opt_Some.
Qed.

(** Each point is made of two tokens that are next to each other. *)
Lemma parse_tokens_adjacent tokens :
  Forall
    (fun p =>
       exists pre tx ty post,
         tokens = pre ++ tx :: ty :: post /\
         float tx = Ok (fst p) /\ float ty = Ok (snd p))
    (parse_tokens tokens).
Proof.
  apply (parse_tokens_cases
    (fun tokens pts =>
       Forall
         (fun p =>
            exists pre tx ty post,
              tokens = pre ++ tx :: ty :: post /\
              float tx = Ok (fst p) /\ float ty = Ok (snd p)) pts)).
  - constructor.
  - intros t rest IH. eapply Forall_impl; [|exact IH].
    intros p (pre & tx & ty & post & -> & Hx & Hy).
    exists (t :: pre), tx, ty, post. auto.
  - intros t tx ty rest x y _ Hx Hy IH. constructor.
    + exists [t], tx, ty, rest. auto.
    + eapply Forall_impl; [|exact IH].
      intros p (pre & ux & uy & post & -> & Hux & Huy).
      exists (t :: tx :: ty :: pre), ux, uy, post. auto.
  - intros tx ty rest x y _ Hx Hy IH. constructor.
    + exists [], tx, ty, rest. auto.
    + eapply Forall_impl; [|exact IH].
      intros p (pre & ux & uy & post & -> & Hux & Huy).
      exists (tx :: ty :: pre), ux, uy, post. auto.
Qed.

(** X1: the parser never gives a negative coordinate: for every path
    string, both coordinates of every point of the result are at least 0. *)
Theorem parse_svg_path_nonnegative (path_string : string) :
  exists coordinates,
    parse_svg_path path_string = Ok coordinates /\
    Forall (fun p => 0 <= fst p /\ 0 <= snd p) coordinates.
Proof.
  eexists. split; [apply parse_svg_path_parse_tokens|].
  eapply Forall_impl; [|apply parse_tokens_adjacent].
  intros p (pre & tx & ty & post & _ & Hx & Hy).
  split; eapply float_nonneg; eauto.
Qed.

(** X2: every point of the result is made of two numeric tokens that are
    next to each other in the token list, the first giving x and the second
    y; the points are at most half as many as the numeric tokens. *)
Theorem parse_svg_path_points_of_tokens (path_string : string) :
  let tokens := findall (strip (list_ascii_of_string path_string)) in
  exists coordinates,
    parse_svg_path path_string = Ok coordinates /\
    Forall
      (fun p =>
         exists pre tx ty post,
           tokens = pre ++ tx :: ty :: post /\
           float tx = Ok (fst p) /\ float ty = Ok (snd p))
      coordinates /\
    (2 * length coordinates <= numeric_count tokens)%nat /\
    (numeric_count tokens <= length tokens)%nat.
Proof.
  intros tokens. eexists. split; [apply parse_svg_path_parse_tokens|].
  split; [apply parse_tokens_adjacent|].
  split; [apply parse_tokens_numeric_count|].
  unfold numeric_count. apply filter_length_le.
Qed.

(** X3: every token that the tokenizer gives is one command letter [M],
    [L] or [Z], or a non-empty run of digits and dots; no other character of
    the path string reaches the parser. *)
Theorem tokens_are_commands_or_numbers (path_string : string) :
  Forall is_token (findall (strip (list_ascii_of_string path_string))).
Proof.
  unfold findall.
  generalize (strip (list_ascii_of_string path_string)) as cs.
  intros cs. apply findall_from_tokens. reflexivity.
Qed.

(** ** Paths in the grammar of the docstring *)

Lemma number_char_not_command c :
  is_number_char c = true -> is_command_char c = false.
Proof.
  destruct c as [[] [] [] [] [] [] [] []]; vm_compute; congruence.
Qed.

Lemma findall_from_number_chars cs rest :
  forallb is_number_char cs = true ->
  forall run, findall_from run (cs ++ rest) = findall_from (run ++ cs) rest.
Proof.
  induction cs as [|c cs IH]; intros H run.
  - now rewrite app_nil_r.
  - simpl in H. apply andb_true_iff in H. destruct H as [Hc Hcs].
    simpl. rewrite (number_char_not_command _ Hc), Hc.
    rewrite IH by exact Hcs. now rewrite <- app_assoc.
Qed.

Lemma findall_numeral x rest c :
  is_numeric x = true -> is_separator c = true ->
  findall_from [] (list_ascii_of_string x ++ c :: rest) =
  x :: findall_from [] rest.
Proof.
  intros Hx Hc. destruct (is_numeric_number_chars _ Hx) as [Hne Hchars].
  rewrite findall_from_number_chars by exact Hchars.
  rewrite findall_from_separator by exact Hc. simpl app.
  destruct (list_ascii_of_string x) as [|a l] eqn:E.
  - exfalso. apply Hne. rewrite <- (string_of_list_ascii_of_string x), E.
    reflexivity.
  - unfold flush. rewrite <- E, string_of_list_ascii_of_string. reflexivity.
Qed.

Lemma findall_render_operands x y rest :
  is_numeric x = true -> is_numeric y = true ->
  findall_from [] (render_operands x y ++ rest) = x :: y :: findall_from [] rest.
Proof.
  intros Hx Hy. unfold render_operands.
  rewrite <- app_assoc. simpl app.
  rewrite (findall_numeral x) by (assumption || reflexivity).
  rewrite <- app_assoc. simpl app.
  rewrite (findall_numeral y) by (assumption || reflexivity).
  reflexivity.
Qed.

Lemma findall_from_command run c cs :
  is_command_char c = true ->
  findall_from run (c :: cs) =
  flush run ++ String c EmptyString :: findall_from [] cs.
Proof. intros H. simpl. now rewrite H. Qed.

Lemma findall_render items :
  Forall item_numeric items ->
  findall (concat (map render_item items)) = concat (map item_tokens items).
Proof.
  unfold findall. induction 1 as [|item items Hitem _ IH]; [reflexivity|].
  cbn [map concat]. destruct item as [x y|x y|x y|];
    cbn [item_numeric] in Hitem; cbn [render_item item_tokens].
  - destruct Hitem as [Hx Hy]. rewrite <- app_comm_cons.
    rewrite findall_from_command by reflexivity.
    rewrite findall_render_operands, IH by assumption. reflexivity.
  - destruct Hitem as [Hx Hy]. rewrite <- app_comm_cons.
    rewrite findall_from_command by reflexivity.
    rewrite findall_render_operands, IH by assumption. reflexivity.
  - destruct Hitem as [Hx Hy].
    rewrite findall_render_operands, IH by assumption. reflexivity.
  - cbn [app]. rewrite findall_from_command by reflexivity.
    rewrite findall_from_separator by reflexivity. rewrite IH. reflexivity.
Qed.

Lemma numeric_not_command x :
  is_numeric x = true -> is_move_or_line x = false /\ String.eqb x "Z" = false.
Proof.
  intros H. destruct (is_move_or_line x) eqn:E1, (String.eqb x "Z") eqn:E2;
    try (rewrite command_not_numeric in H; [discriminate|];
         rewrite E1, E2; reflexivity).
  auto.
Qed.

Lemma parse_tokens_items items :
  Forall item_numeric items ->
  parse_tokens (concat (map item_tokens items)) =
  concat (map item_points items).
Proof.
  induction 1 as [|item items Hitem _ IH]; [reflexivity|].
  simpl map. simpl concat. destruct item as [x y|x y|x y|]; simpl in Hitem.
  - destruct Hitem as [Hx Hy]. simpl.
    rewrite (is_numeric_operand _ Hx), (is_numeric_operand _ Hy), IH.
    reflexivity.
  - destruct Hitem as [Hx Hy]. simpl.
    rewrite (is_numeric_operand _ Hx), (is_numeric_operand _ Hy), IH.
    reflexivity.
  - destruct Hitem as [Hx Hy]. simpl app. cbn [item_points app].
    destruct (numeric_not_command _ Hx) as [E1 E2].
    cbn [parse_tokens]. rewrite E1, E2.
    rewrite (is_numeric_operand _ Hx), (is_numeric_operand _ Hy), IH.
    reflexivity.
  - simpl. exact IH.
Qed.

(** X4: a path written in the grammar of the docstring is parsed to its
    points.  For every list of items [M x,y], [L x,y], bare [x,y] and [Z]
    whose operands are numerals that [float] accepts, the parse of the
    written path is the list of the points (x, y) of the items, in order;
    [Z] gives no point and a bare pair gives one as [L] does. *)
Theorem parse_svg_path_render (items : list path_item) :
  Forall item_numeric items ->
  parse_svg_path (render_path items) = Ok (concat (map item_points items)).
Proof.
  intros H. rewrite parse_svg_path_parse_tokens. unfold render_path.
  rewrite list_ascii_of_string_of_list_ascii, findall_strip.
  rewrite findall_render by exact H. now rewrite parse_tokens_items.
Qed.

Lemma parse_svg_path_render_witness :
  parse_svg_path
    (render_path [MoveTo "1.5" "2"; LineTo "3" "4"; Implicit "5" ".5"; ClosePath]) =
  Ok (concat (map item_points
                [MoveTo "1.5" "2"; LineTo "3" "4"; Implicit "5" ".5"; ClosePath])).
Proof.
  apply (parse_svg_path_render
           [MoveTo "1.5" "2"; LineTo "3" "4"; Implicit "5" ".5"; ClosePath]).
  repeat constructor.
Defined.

(** ** Files *)

Lemma parse_svg_path_path_points d : parse_svg_path d = Ok (path_points d).
Proof.
  unfold path_points. now rewrite parse_svg_path_parse_tokens.
Qed.

Lemma extend_with_path_points all d :
  extend_with_path (Ok all) d = Ok (all ++ path_points d).
Proof.
  unfold extend_with_path. cbn [bind].
  destruct (String.eqb d "") eqn:E.
  - apply String.eqb_eq in E. subst d.
    replace (path_points "") with (@nil (R * R)).
    + now rewrite app_nil_r.
    + unfold path_points. rewrite parse_svg_path_parse_tokens. reflexivity.
  - rewrite parse_svg_path_path_points. reflexivity.
Qed.

Lemma fold_extend_with_path paths :
  forall all,
    fold_left extend_with_path paths (Ok all) =
    Ok (all ++ concat (map path_points paths)).
Proof.
  induction paths as [|d paths IH]; intros all; cbn [fold_left map concat].
  - now rewrite app_nil_r.
  - rewrite extend_with_path_points, IH, <- app_assoc. reflexivity.
Qed.

Lemma parse_svg_file_document namespaced plain :
  parse_svg_file (Document namespaced plain) =
  Ok (concat (map path_points
                match namespaced with
                | [] => plain
                | _ :: _ => namespaced
                end)).
Proof.
  unfold parse_svg_file.
  destruct (match namespaced with [] => plain | _ :: _ => namespaced end)
    as [|d paths]; [reflexivity|].
  rewrite fold_extend_with_path. reflexivity.
Qed.

Lemma parse_svg_file_total doc : exists coords, parse_svg_file doc = Ok coords.
Proof.
  destruct doc as [|namespaced plain]; [eexists; reflexivity|].
  rewrite parse_svg_file_document. eauto.
Qed.

(** X5: [parse_svg_file] raises nothing and joins the paths of a file in
    document order.  A file that cannot be read gives the empty list; a
    document gives the points of its path elements one after the other, the
    elements found with the namespace when there is one, the elements found
    without it otherwise; a path without [d] attribute adds nothing. *)
Theorem parse_svg_file_concat :
  parse_svg_file Unreadable = Ok [] /\
  (forall namespaced plain,
      parse_svg_file (Document namespaced plain) =
      Ok (concat (map path_points
                    match namespaced with
                    | [] => plain
                    | _ :: _ => namespaced
                    end))) /\
  path_points "" = [] /\
  (forall doc, exists coords, parse_svg_file doc = Ok coords).
Proof.
  split; [reflexivity|]. split; [exact parse_svg_file_document|]. split.
  - unfold path_points. rewrite parse_svg_path_parse_tokens. reflexivity.
  - exact parse_svg_file_total.
Qed.

(** ** The simplifier *)

Lemma greedy_walk_spaced tolerance kept rest out :
  greedy_walk tolerance kept rest out -> spaced tolerance kept out.
Proof.
  induction 1 as [kept | kept p rest out G _ IH | kept p rest out L _ IH];
    simpl; auto.
Qed.

Lemma greedy_walk_subsequence tolerance kept rest out :
  greedy_walk tolerance kept rest out -> subsequence out rest.
Proof.
  induction 1; constructor; assumption.
Qed.

Lemma subsequence_refl {A : Type} (l : list A) : subsequence l l.
Proof. induction l; constructor; assumption. Qed.

Lemma subsequence_length {A : Type} (l1 l2 : list A) :
  subsequence l1 l2 -> (length l1 <= length l2)%nat.
Proof. induction 1; simpl; lia. Qed.

Lemma fold_simplify_step_spaced tolerance out :
  forall simplified kept,
    spaced tolerance kept out ->
    fold_left (simplify_step tolerance) out (simplified ++ [kept]) =
    simplified ++ kept :: out.
Proof.
  induction out as [|p out IH]; intros simplified kept H; [reflexivity|].
  destruct H as [G H].
  rewrite fold_simplify_step_keep by (rewrite last_last; exact G).
  rewrite IH by exact H. now rewrite <- app_assoc.
Qed.

Lemma simplify_polygon_walk (coordinates : list Point) (tolerance : R) :
  (3 < length coordinates)%nat ->
  exists first rest out,
    coordinates = first :: rest /\
    simplify_polygon coordinates tolerance = first :: out /\
    greedy_walk tolerance first rest out.
Proof.
  intros H. destruct coordinates as [|first rest]; [simpl in H; lia|].
  simpl in H.
  destruct (fold_simplify_step_greedy tolerance rest [] first)
    as (out & Hout & Hwalk).
  exists first, rest, out. split; [reflexivity|]. split; [|exact Hwalk].
  rewrite simplify_polygon_loop by lia. exact Hout.
Qed.

Lemma simplify_polygon_walk_spaced (coordinates : list Point) (tolerance : R) :
  (3 < length coordinates)%nat ->
  exists first out,
    simplify_polygon coordinates tolerance = first :: out /\
    spaced tolerance first out.
Proof.
  intros H.
  destruct (simplify_polygon_walk coordinates tolerance H)
    as (first & rest & out & _ & Hout & Hwalk).
  exists first, out. split; [exact Hout|].
  eapply greedy_walk_spaced; eauto.
Qed.



(** X7: simplifying twice with the same tolerance is simplifying once. *)
Theorem simplify_polygon_idempotent (coordinates : list Point) (tolerance : R) :
  simplify_polygon (simplify_polygon coordinates tolerance) tolerance =
  simplify_polygon coordinates tolerance.
Proof.
  destruct (le_lt_dec (length coordinates) 3) as [Hle|Hgt].
  - now rewrite !(simplify_polygon_guard coordinates) by exact Hle.
  - destruct (simplify_polygon_walk_spaced coordinates tolerance Hgt)
      as (first & out & -> & Hspaced).
    destruct (le_lt_dec (length (first :: out)) 3) as [Hle'|Hgt'].
    + now apply simplify_polygon_guard.
    + simpl in Hgt'. rewrite simplify_polygon_loop by lia.
      apply (fold_simplify_step_spaced tolerance out [] first Hspaced).
Qed.

Lemma simplify_polygon_sub_hd (coordinates : list Point) (tolerance : R) :
  subsequence (simplify_polygon coordinates tolerance) coordinates /\
  hd_error (simplify_polygon coordinates tolerance) = hd_error coordinates.
Proof.
  destruct (le_lt_dec (length coordinates) 3) as [Hle|Hgt].
  - rewrite simplify_polygon_guard by exact Hle.
    split; [apply subsequence_refl | reflexivity].
  - destruct (simplify_polygon_walk coordinates tolerance Hgt)
      as (first & rest & out & -> & -> & Hwalk).
    split; [|reflexivity]. constructor.
    eapply greedy_walk_subsequence; eauto.
Qed.

(** X8: the simplifier only leaves points out.  For every list and every
    tolerance the output is a subsequence of the input (no point is added,
    moved or changed), it is no longer than the input, and it starts with
    the first point of the input: a non-empty polygon stays non-empty. *)
Theorem simplify_polygon_subsequence (coordinates : list Point) (tolerance : R) :
  subsequence (simplify_polygon coordinates tolerance) coordinates /\
  (length (simplify_polygon coordinates tolerance) <= length coordinates)%nat /\
  hd_error (simplify_polygon coordinates tolerance) = hd_error coordinates.
Proof.
  destruct (simplify_polygon_sub_hd coordinates tolerance) as [Hsub Hhd].
  split; [exact Hsub|]. split; [|exact Hhd].
  now apply subsequence_length.
Qed.


(** ** The converter and the scaler *)

(** X10: with a target viewport equal to the source viewport, as in the
    defaults of [main], scaling changes no point. *)
Theorem scale_coordinates_same_viewport (width height : R)
  (self : SVGToGodotConverter) (coordinates : list Point) :
  init width height width height = Ok self ->
  scale_coordinates self coordinates = coordinates.
Proof.
  unfold init, truediv.
  destruct (Req_dec_T width 0) as [|Hw]; [discriminate|].
  destruct (Req_dec_T height 0) as [|Hh]; [discriminate|].
  intros [= <-]. rewrite scale_coordinates_map.
  induction coordinates as [|[x y] coordinates IH]; [reflexivity|].
  simpl. rewrite IH. repeat f_equal; field; assumption.
Qed.

Lemma scale_coordinates_same_viewport_witness :
  scale_coordinates default_converter [(3, 4); (5, 6)] = [(3, 4); (5, 6)].
Proof.
  apply (scale_coordinates_same_viewport 1920 1080).
  exact default_converter_init.
Defined.

(** ** The order of the files *)

Lemma ltb_lts a b : String.ltb a b = true <-> String_as_OT.lt a b.
Proof.
  rewrite <- String_as_OT.cmp_lt. unfold String.ltb, String_as_OT.cmp.
  destruct (String.compare a b); split; congruence.
Qed.

Lemma ltb_trans a b c :
  String.ltb a b = true -> String.ltb b c = true -> String.ltb a c = true.
Proof.
  rewrite !ltb_lts. apply String_as_OT.lt_trans.
Qed.

Lemma ltb_irrefl a : String.ltb a a = false.
Proof.
  destruct (String.ltb a a) eqn:E; [|reflexivity].
  apply ltb_lts in E. destruct (String_as_OT.lt_not_eq _ _ E). reflexivity.
Qed.

Lemma ltb_asym a b : String.ltb a b = true -> String.ltb b a = false.
Proof.
  intros H. destruct (String.ltb b a) eqn:E; [|reflexivity].
  rewrite <- (ltb_irrefl a). symmetry. eapply ltb_trans; eauto.
Qed.

Lemma ltb_trichotomy a b :
  a <> b -> String.ltb a b = true \/ String.ltb b a = true.
Proof.
  intros Hne. unfold String.ltb. rewrite (String.compare_antisym b a).
  destruct (String.compare a b) eqn:E; simpl; auto.
  apply String.compare_eq_iff in E. contradiction.
Qed.

Lemma insert_sorted_comm x y fs :
  file_name x <> file_name y ->
  insert_sorted x (insert_sorted y fs) = insert_sorted y (insert_sorted x fs).
Proof.
  intros Hne. induction fs as [|g fs IH]; simpl.
  - destruct (ltb_trichotomy _ _ Hne) as [H|H];
      rewrite H, (ltb_asym _ _ H); reflexivity.
  - destruct (String.ltb (file_name x) (file_name g)) eqn:Exg,
             (String.ltb (file_name y) (file_name g)) eqn:Eyg; simpl.
    + rewrite Exg, Eyg.
      destruct (ltb_trichotomy _ _ Hne) as [H|H];
        rewrite H, (ltb_asym _ _ H); reflexivity.
    + rewrite Exg.
      destruct (String.ltb (file_name y) (file_name x)) eqn:Eyx.
      * rewrite (ltb_trans _ _ _ Eyx Exg) in Eyg. discriminate.
      * simpl. rewrite Eyg. reflexivity.
    + rewrite Eyg.
      destruct (String.ltb (file_name x) (file_name y)) eqn:Exy.
      * rewrite (ltb_trans _ _ _ Exy Eyg) in Exg. discriminate.
      * simpl. rewrite Exg. reflexivity.
    + rewrite Exg, Eyg, IH. reflexivity.
Qed.

Lemma insert_sorted_permutation f fs : Permutation (insert_sorted f fs) (f :: fs).
Proof.
  induction fs as [|g fs IH]; simpl; [reflexivity|].
  destruct (String.ltb (file_name f) (file_name g)); [reflexivity|].
  rewrite IH. apply perm_swap.
Qed.

Lemma fold_insert_sorted_permutation fs :
  forall acc,
    Permutation (fold_left (fun acc f => insert_sorted f acc) fs acc) (fs ++ acc).
Proof.
  induction fs as [|f fs IH]; intros acc; simpl; [reflexivity|].
  rewrite IH, insert_sorted_permutation. symmetry. apply Permutation_middle.
Qed.

Lemma sorted_permutation fs : Permutation (sorted fs) fs.
Proof.
  unfold sorted. rewrite fold_insert_sorted_permutation. now rewrite app_nil_r.
Qed.

Lemma name_le_trans f g h : name_le f g -> name_le g h -> name_le f h.
Proof.
  unfold name_le. intros Hfg Hgh.
  destruct (String.ltb (file_name h) (file_name f)) eqn:E; [|reflexivity].
  destruct (string_dec (file_name f) (file_name g)) as [Heq|Hne].
  - rewrite Heq in E. congruence.
  - destruct (ltb_trichotomy _ _ Hne) as [H|H]; [|congruence].
    rewrite (ltb_trans _ _ _ E H) in Hgh. discriminate.
Qed.

Lemma insert_sorted_sorted f fs :
  StronglySorted name_le fs -> StronglySorted name_le (insert_sorted f fs).
Proof.
  induction 1 as [|g fs Hs IH Hg]; simpl.
  - repeat constructor.
  - destruct (String.ltb (file_name f) (file_name g)) eqn:E.
    + constructor; [now constructor|]. constructor.
      * unfold name_le. now apply ltb_asym.
      * eapply Forall_impl; [|exact Hg]. intros h Hgh.
        eapply name_le_trans; [|exact Hgh]. unfold name_le. now apply ltb_asym.
    + constructor; [exact IH|].
      rewrite (insert_sorted_permutation f fs). constructor; assumption.
Qed.

Lemma sorted_sorted fs : StronglySorted name_le (sorted fs).
Proof.
  unfold sorted.
  assert (H : forall acc, StronglySorted name_le acc ->
                          StronglySorted name_le
                            (fold_left (fun acc f => insert_sorted f acc) fs acc)).
  { induction fs as [|f fs IH]; intros acc Hacc; simpl; [exact Hacc|].
    apply IH. now apply insert_sorted_sorted. }
  apply H. constructor.
Qed.

Lemma fold_insert_sorted_order fs fs' :
  Permutation fs fs' ->
  NoDup (map file_name fs) ->
  forall acc,
    fold_left (fun acc f => insert_sorted f acc) fs acc =
    fold_left (fun acc f => insert_sorted f acc) fs' acc.
Proof.
  induction 1 as [|x l l' Hperm IH|x y l|l l' l'' H1 IH1 H2 IH2];
    intros Hnd acc; simpl.
  - reflexivity.
  - inversion Hnd; subst. now apply IH.
  - inversion Hnd as [|? ? Hy Hnd']; subst. f_equal.
    apply insert_sorted_comm. intros Heq. apply Hy. left. exact Heq.
  - rewrite IH1 by exact Hnd. apply IH2.
    eapply Permutation_NoDup; [|exact Hnd]. now apply Permutation_map.
Qed.

(** ** The dataset *)

Lemma convert_file_add_file self simplify tolerance data svg_file :
  convert_file self simplify tolerance (Ok data) svg_file =
  Ok (add_file self simplify tolerance data svg_file).
Proof.
  unfold convert_file, add_file, has_points, file_record, final_points.
  cbn [bind].
  destruct (parse_svg_file_total (document svg_file)) as [coords ->].
  cbn [bind]. destruct coords; reflexivity.
Qed.

Lemma fold_convert_file self simplify tolerance svg_files :
  forall data,
    fold_left (convert_file self simplify tolerance) svg_files (Ok data) =
    Ok (fold_left (add_file self simplify tolerance) svg_files data).
Proof.
  induction svg_files as [|f fs IH]; intros data; cbn [fold_left];
    [reflexivity|].
  rewrite convert_file_add_file. apply IH.
Qed.

Lemma convert_svg_folder_fold self svg_folder simplify tolerance :
  convert_svg_folder self svg_folder simplify tolerance =
  Ok (fold_left (add_file self simplify tolerance)
        (sorted (folder_files svg_folder)) []).
Proof.
  destruct svg_folder as [|[|f fs]]; try reflexivity.
  unfold convert_svg_folder. apply fold_convert_file.
Qed.


Lemma dict_set_keys (data : Dataset) key value :
  map fst (dict_set data key value) = map fst data \/
  (~ In key (map fst data) /\
   map fst (dict_set data key value) = map fst data ++ [key]).
Proof.
  induction data as [|[k v] data IH]; simpl.
  - right. split; [tauto | reflexivity].
  - destruct (String.eqb k key) eqn:E; [left; reflexivity|].
    apply String.eqb_neq in E. simpl.
    destruct IH as [-> | [Hin ->]]; [left; reflexivity|].
    right. split; [|reflexivity]. intros [H|H]; contradiction.
Qed.

Lemma dict_set_Forall (P : string * TerritoryRecord -> Prop)
  (data : Dataset) key value :
  P (key, value) -> Forall P data -> Forall P (dict_set data key value).
Proof.
  intros Hp. induction 1 as [|[k v] data Hkv Hdata IH]; simpl.
  - repeat constructor. exact Hp.
  - destruct (String.eqb k key) eqn:E.
    + apply String.eqb_eq in E. subst k. constructor; assumption.
    + constructor; assumption.
Qed.


Lemma file_record_vertices self simplify tolerance svg_file :
  has_points svg_file = true ->
  let r := file_record self simplify tolerance svg_file in
  vertex_count r = length (polygon r) /\ (1 <= vertex_count r)%nat.
Proof.
  unfold has_points, file_record. intros H.
  destruct (parse_svg_file (document svg_file)) as [[|p coords]|];
    try discriminate.
  cbn [vertex_count polygon]. split; [reflexivity|]. rewrite length_map.
  unfold final_points.
  assert (Hs : exists q l, scale_coordinates self (p :: coords) = q :: l).
  { rewrite scale_coordinates_map. simpl. eauto. }
  destruct Hs as (q & l & Hs). rewrite Hs.
  destruct simplify; [|simpl; lia].
  destruct (simplify_polygon_sub_hd (q :: l) tolerance) as [_ Hhd].
  destruct (simplify_polygon (q :: l) tolerance); [discriminate|simpl; lia].
Qed.

Lemma NoDup_snoc {A : Type} (l : list A) (a : A) :
  NoDup l -> ~ In a l -> NoDup (l ++ [a]).
Proof.
  intros Hl Ha. eapply Permutation_NoDup; [apply Permutation_cons_append|].
  now constructor.
Qed.

Lemma add_file_invariant self simplify tolerance all data svg_file :
  In svg_file all ->
  NoDup (map fst data) ->
  Forall
    (fun entry =>
       exists f, In f all /\ has_points f = true /\
                 entry = file_entry self simplify tolerance f) data ->
  let data' := add_file self simplify tolerance data svg_file in
  NoDup (map fst data') /\
  Forall
    (fun entry =>
       exists f, In f all /\ has_points f = true /\
                 entry = file_entry self simplify tolerance f) data' /\
  (length data' <= S (length data))%nat.
Proof.
  intros Hin Hnd Hall. unfold add_file.
  destruct (has_points svg_file) eqn:Hp; cbv zeta.
  2:{ split; [exact Hnd|]. split; [exact Hall | lia]. }
  split; [|split].
  - destruct (dict_set_keys data (stem (file_name svg_file))
                (file_record self simplify tolerance svg_file))
      as [-> | [Hfresh ->]]; [exact Hnd|].
    now apply NoDup_snoc.
  - apply dict_set_Forall; [|exact Hall].
    exists svg_file. auto.
  - rewrite <- (length_map fst), <- (length_map fst data).
    destruct (dict_set_keys data (stem (file_name svg_file))
                (file_record self simplify tolerance svg_file))
      as [-> | [Hfresh ->]]; [lia|].
    rewrite length_app. simpl. lia.
Qed.

Lemma fold_add_file_invariant self simplify tolerance all svg_files :
  forall data,
    (forall f, In f svg_files -> In f all) ->
    NoDup (map fst data) ->
    Forall
      (fun entry =>
         exists f, In f all /\ has_points f = true /\
                   entry = file_entry self simplify tolerance f) data ->
    let data' := fold_left (add_file self simplify tolerance) svg_files data in
    NoDup (map fst data') /\
    Forall
      (fun entry =>
         exists f, In f all /\ has_points f = true /\
                   entry = file_entry self simplify tolerance f) data' /\
    (length data' <= length data + length svg_files)%nat.
Proof.
  induction svg_files as [|f fs IH]; intros data Hsub Hnd Hall; cbn [fold_left].
  - cbv zeta. split; [exact Hnd|]. split; [exact Hall | simpl; lia].
  - destruct (add_file_invariant self simplify tolerance all data f)
      as (Hnd' & Hall' & Hlen'); auto using in_eq.
    destruct (IH (add_file self simplify tolerance data f))
      as (Hnd'' & Hall'' & Hlen''); auto using in_cons.
    cbv zeta. split; [exact Hnd''|]. split; [exact Hall''|]. simpl. lia.
Qed.

(** X13: what [convert_svg_folder] keeps in its result.  Whenever it
    returns a dataset, for every converter, folder and setting: no
    identifier occurs twice; there are at most as many records as files; and
    every record is the record of a file of the folder that gave at least
    one point: its [vertex_count] is the length of its polygon and is at
    least 1. *)
Theorem convert_svg_folder_records (self : SVGToGodotConverter)
  (svg_folder : Folder) (simplify : bool) (tolerance : R) (data : Dataset) :
  convert_svg_folder self svg_folder simplify tolerance = Ok data ->
  NoDup (map fst data) /\
  (length data <= length (folder_files svg_folder))%nat /\
  Forall
    (fun entry =>
       vertex_count (snd entry) = length (polygon (snd entry)) /\
       (1 <= vertex_count (snd entry))%nat /\
       exists svg_file,
         In svg_file (folder_files svg_folder) /\
         has_points svg_file = true /\
         entry = file_entry self simplify tolerance svg_file)
    data.
Proof.
  rewrite convert_svg_folder_fold. intros [= <-].
  destruct (fold_add_file_invariant self simplify tolerance
              (folder_files svg_folder) (sorted (folder_files svg_folder)) [])
    as (Hnd & Hall & Hlen).
  - intros f Hf. eapply Permutation_in; [apply sorted_permutation | exact Hf].
  - constructor.
  - constructor.
  - split; [exact Hnd|]. split.
    + rewrite (Permutation_length (sorted_permutation _)) in Hlen. exact Hlen.
    + eapply Forall_impl; [|exact Hall].
      intros entry (f & Hin & Hp & ->).
      destruct (file_record_vertices self simplify tolerance f Hp) as [H1 H2].
      split; [exact H1|]. split; [exact H2|]. exists f. auto.
Qed.

Lemma convert_svg_folder_records_witness :
  exists data,
    convert_svg_folder default_converter
      (Listing [mkSvgFile "b.svg" (Document ["M1,2 L3,4"] []);
                mkSvgFile "a.svg" Unreadable]) true 1 = Ok data /\
    NoDup (map fst data) /\
    (length data <= 2)%nat.
Proof.
  eexists. split; [apply convert_svg_folder_fold|].
  destruct (convert_svg_folder_records default_converter
              (Listing [mkSvgFile "b.svg" (Document ["M1,2 L3,4"] []);
                        mkSvgFile "a.svg" Unreadable]) true 1 _
              (convert_svg_folder_fold _ _ _ _)) as (Hnd & Hlen & _).
  split; [exact Hnd | exact Hlen].
Defined.




(** X15: the files are converted in the order of their names, whatever
    the order in which the folder lists them.  [sorted] gives the same files,
    no file before a file of smaller name; and for two listings of the same
    files with different names the result of [convert_svg_folder] is the
    same. *)
Theorem convert_svg_folder_listing_order (self : SVGToGodotConverter)
  (svg_files svg_files' : list SvgFile) (simplify : bool) (tolerance : R) :
  Permutation svg_files svg_files' ->
  NoDup (map file_name svg_files) ->
  Permutation (sorted svg_files) svg_files /\
  StronglySorted name_le (sorted svg_files) /\
  sorted svg_files = sorted svg_files' /\
  convert_svg_folder self (Listing svg_files) simplify tolerance =
  convert_svg_folder self (Listing svg_files') simplify tolerance.
Proof.
  intros Hperm Hnd.
  assert (Hsorted : sorted svg_files = sorted svg_files').
  { unfold sorted. now apply fold_insert_sorted_order. }
  split; [apply sorted_permutation|]. split; [apply sorted_sorted|].
  split; [exact Hsorted|].
  rewrite !convert_svg_folder_fold. cbn [folder_files]. now rewrite Hsorted.
Qed.

Lemma convert_svg_folder_listing_order_witness :
  sorted [mkSvgFile "b.svg" Unreadable; mkSvgFile "a.svg" Unreadable] =
  sorted [mkSvgFile "a.svg" Unreadable; mkSvgFile "b.svg" Unreadable].
Proof.
  refine (proj1 (proj2 (proj2
    (convert_svg_folder_listing_order default_converter
       [mkSvgFile "b.svg" Unreadable; mkSvgFile "a.svg" Unreadable]
       [mkSvgFile "a.svg" Unreadable; mkSvgFile "b.svg" Unreadable]
       true 1 _ _)))).
  - apply perm_swap.
  - repeat constructor; simpl; intuition discriminate.
Defined.








(** ** The process *)





(** ** Identifiers and names *)

Lemma rfind_dot_app cs1 cs2 :
  forall pos found,
    rfind_dot (cs1 ++ cs2) pos found =
    rfind_dot cs2 (pos + length cs1) (rfind_dot cs1 pos found).
Proof.
  induction cs1 as [|c cs1 IH]; intros pos found; simpl.
  - now rewrite Nat.add_0_r.
  - rewrite IH. f_equal. lia.
Qed.

Lemma rfind_dot_none cs :
  ~ In "."%char cs -> forall pos found, rfind_dot cs pos found = found.
Proof.
  induction cs as [|c cs IH]; intros Hin pos found; [reflexivity|].
  simpl. destruct (Ascii.eqb c ".") eqn:E.
  - apply Ascii.eqb_eq in E. exfalso. apply Hin. left. exact E.
  - apply IH. intros H. apply Hin. now right.
Qed.

Lemma list_ascii_of_string_append s1 s2 :
  list_ascii_of_string (s1 ++ s2)%string =
  list_ascii_of_string s1 ++ list_ascii_of_string s2.
Proof. induction s1 as [|c s1 IH]; simpl; [reflexivity | now rewrite IH]. Qed.

Lemma stem_suffix base ext :
  base <> "" -> ext <> "" -> ~ In "."%char (list_ascii_of_string ext) ->
  stem (base ++ "." ++ ext)%string = base.
Proof.
  intros Hbase Hext Hdot. unfold stem.
  rewrite !list_ascii_of_string_append. cbn [list_ascii_of_string app].
  rewrite rfind_dot_app. cbn [rfind_dot]. rewrite Ascii.eqb_refl.
  rewrite rfind_dot_none by exact Hdot. cbn [Nat.add].
  assert (Hb : (0 < length (list_ascii_of_string base))%nat).
  { destruct base; [contradiction | simpl; lia]. }
  assert (He : (0 < length (list_ascii_of_string ext))%nat).
  { destruct ext; [contradiction | simpl; lia]. }
  replace (0 <? length (list_ascii_of_string base))%nat with true
    by (symmetry; now apply Nat.ltb_lt).
  replace (length (list_ascii_of_string base) <?
           length (list_ascii_of_string base ++
                   "."%char :: list_ascii_of_string ext) - 1)%nat with true.
  2:{ symmetry. apply Nat.ltb_lt. rewrite length_app. simpl. lia. }
  cbn [andb]. rewrite firstn_app, Nat.sub_diag, firstn_all. cbn [firstn].
  rewrite app_nil_r. apply string_of_list_ascii_of_string.
Qed.

(** X18: the identifier of a territory is the name of its file without the
    extension.  For every non-empty base name (dots and underscores in it
    are kept) the file [base.svg] is stored under the key [base]; a name
    that starts with its only dot, as [.svg], has no extension and is its
    own identifier. *)
Theorem file_entry_identifier (self : SVGToGodotConverter) (simplify : bool)
  (tolerance : R) (base : string) (doc : SvgDocument) :
  (base <> "" ->
   fst (file_entry self simplify tolerance
          (mkSvgFile (base ++ ".svg")%string doc)) = base) /\
  fst (file_entry self simplify tolerance (mkSvgFile ".svg" doc)) = ".svg".
Proof.
  split; [|reflexivity]. intros Hbase. unfold file_entry. cbn [fst file_name].
  apply (stem_suffix base "svg" Hbase); [discriminate|].
  simpl. intuition discriminate.
Qed.

Lemma file_entry_identifier_witness :
  fst (file_entry default_converter true 1
         (mkSvgFile ("great_britain" ++ ".svg")%string Unreadable)) =
  "great_britain".
Proof.
  apply (proj1 (file_entry_identifier default_converter true 1
                  "great_britain" Unreadable)).
  discriminate.
Defined.

Lemma fold_case_to_upper c :
  is_lower c = true -> fold_case (to_upper c) = fold_case c.
Proof.
  destruct c as [[] [] [] [] [] [] [] []]; vm_compute; congruence.
Qed.

Lemma fold_case_to_lower c :
  is_upper c = true -> fold_case (to_lower c) = fold_case c.
Proof.
  destruct c as [[] [] [] [] [] [] [] []]; vm_compute; congruence.
Qed.

Lemma title_from_fold_case cs :
  forall previous_is_cased,
    map fold_case (title_from previous_is_cased cs) = map fold_case cs.
Proof.
  induction cs as [|c cs IH]; intros b; [reflexivity|].
  simpl. destruct (is_lower c) eqn:El.
  - simpl. rewrite IH. destruct b; [reflexivity|].
    now rewrite fold_case_to_upper.
  - destruct (is_upper c) eqn:Eu; simpl; rewrite IH; [|reflexivity].
    destruct b; [|reflexivity]. now rewrite fold_case_to_lower.
Qed.

(** X20: the display name of a territory is its identifier with a space in
    place of each underscore, up to the case of the letters: it has the
    length of the identifier, no underscore, and the same characters once
    upper case is folded to lower case. *)
Theorem file_record_name (self : SVGToGodotConverter) (simplify : bool)
  (tolerance : R) (svg_file : SvgFile) :
  let identifier := list_ascii_of_string (stem (file_name svg_file)) in
  let display :=
    list_ascii_of_string (name (file_record self simplify tolerance svg_file)) in
  map fold_case display =
  map fold_case
    (map (fun c => if Ascii.eqb c "_" then " "%char else c) identifier) /\
  length display = length identifier /\
  ~ In "_"%char display.
Proof.
  intros identifier display.
  assert (H : map fold_case display =
              map fold_case
                (map (fun c => if Ascii.eqb c "_" then " "%char else c)
                   identifier)).
  { unfold display, file_record. cbv zeta. cbn [name]. unfold title.
    rewrite list_ascii_of_string_of_list_ascii, title_from_fold_case.
    unfold replace_underscores.
    now rewrite list_ascii_of_string_of_list_ascii. }
  split; [exact H|]. split.
  - apply (f_equal (@length _)) in H. now rewrite !length_map in H.
  - intros Hin. apply (in_map fold_case) in Hin. rewrite H in Hin.
    apply in_map_iff in Hin. destruct Hin as (c & Hc & Hin).
    apply in_map_iff in Hin. destruct Hin as (d & <- & _).
    destruct (Ascii.eqb d "_") eqn:E; [discriminate Hc|].
    apply Ascii.eqb_neq in E. apply E. clear - Hc.
    destruct d as [[] [] [] [] [] [] [] []]; vm_compute in Hc;
      try discriminate Hc; reflexivity.
Qed.
